(** * ai-commit: the staged-diff parser and the smart-diff digest

    A shallow embedding of [GetStagedDiffFiles] and [PrepareSmartDiff]
    (package [git] of the repository) together with the parts of Go's
    [strings], [regexp] and [float64] they rely on.

    - Go strings are byte strings: [string] of the Standard Library, one
      [ascii] per byte.
    - Go's [int] is the 64-bit two's-complement integer of the common
      platforms: a [Z] with the wrap-around written out ([wrap64]).
    - [float64] is IEEE binary64 as specified by [SpecFloat]
      ([prec = 53], [emax = 1024]).
    - The directory groups are a Go map: a [gmap], ranged over in an order
      the language does not fix. *)

From Stdlib Require Import ZArith Lia List Ascii String Bool.
From Stdlib Require Import Floats.SpecFloat.
From stdpp Require Import base list gmap strings pretty.

Local Open Scope string_scope.
Local Open Scope list_scope.
Local Open Scope Z_scope.

(** ** Bytes and literals *)

Definition TAB_byte : ascii := "009"%char.
Definition NL_byte : ascii := "010"%char.
Definition slash_byte : ascii := "/"%char.

Definition TAB : string := String TAB_byte EmptyString.
Definition NL : string := String NL_byte EmptyString.

(** ** Go's package [strings] (the functions the program calls) *)

Module strings.

(** [strings.HasPrefix(s, prefix)] *)
Definition HasPrefix (s pre : string) : bool := String.prefix pre s.

(** [strings.HasSuffix(s, suffix)] *)
Definition HasSuffix (s suf : string) : bool :=
  let n := String.length s in
  let k := String.length suf in
  (k <=? n)%nat && String.eqb (substring (n - k) k s) suf.

(** [strings.Split(s, sep)] for a one-byte separator (the program splits
    on newline and on slash only).  The result is never empty: splitting
    the empty string gives one empty field. *)
Fixpoint Split (s : string) (sep : ascii) : list string :=
  match s with
  | EmptyString => [EmptyString]
  | String c s' =>
      if Ascii.eqb c sep then EmptyString :: Split s' sep
      else match Split s' sep with
           | [] => [String c EmptyString]
           | hd :: tl => String c hd :: tl
           end
  end.

(** [strings.SplitN(s, sep, 2)]: cut at the first separator only. *)
Fixpoint SplitN2 (s : string) (sep : ascii) : list string :=
  match s with
  | EmptyString => [EmptyString]
  | String c s' =>
      if Ascii.eqb c sep then [EmptyString; s']
      else match SplitN2 s' sep with
           | [] => [String c EmptyString]
           | hd :: tl => String c hd :: tl
           end
  end.

(** [strings.Join(elems, sep)] *)
Fixpoint Join (elems : list string) (sep : string) : string :=
  match elems with
  | [] => EmptyString
  | [a] => a
  | a :: rest => a +:+ sep +:+ Join rest sep
  end.

(** The encodings (UTF-8) of the code points [unicode.IsSpace] accepts:
    U+0009..U+000D, U+0020, U+0085, U+00A0, U+1680, U+2000..U+200A,
    U+2028, U+2029, U+202F, U+205F, U+3000. *)
Definition bytes (l : list nat) : string :=
  string_of_list_ascii (map ascii_of_nat l).

Definition spaceEncodings : list string :=
  map bytes
    (List.app
       [[9]; [10]; [11]; [12]; [13]; [32]; [194; 133]; [194; 160];
        [225; 154; 128]; [226; 128; 168]; [226; 128; 169]; [226; 128; 175];
        [226; 129; 159]; [227; 128; 128]]
       (map (fun k => [226; 128; 128 + k]) (seq 0 11)))%nat.

(** Length of the white-space rune [s] starts with, if it starts with one. *)
Definition leadingSpace (s : string) : option nat :=
  String.length <$> find (fun enc => String.prefix enc s) spaceEncodings.

Fixpoint dropBytes (n : nat) (s : string) : string :=
  match n, s with
  | O, _ => s
  | S n', String _ s' => dropBytes n' s'
  | S _, EmptyString => EmptyString
  end.

(** [strings.TrimLeftFunc(s, unicode.IsSpace)]; [fuel] bounds the number
    of runes removed and is the length of the string. *)
Fixpoint trimLeft (fuel : nat) (s : string) : string :=
  match fuel with
  | O => s
  | S fuel' =>
      match leadingSpace s with
      | Some k => trimLeft fuel' (dropBytes k s)
      | None => s
      end
  end.

(** The last rune of [s] is white space when [s] ends with one of the
    encodings: decoding backwards from the end finds exactly the start
    byte of that encoding. *)
Definition trailingSpace (s : string) : option nat :=
  String.length <$> find (fun enc => HasSuffix s enc) spaceEncodings.

Fixpoint trimRight (fuel : nat) (s : string) : string :=
  match fuel with
  | O => s
  | S fuel' =>
      match trailingSpace s with
      | Some k => trimRight fuel' (substring 0 (String.length s - k) s)
      | None => s
      end
  end.

(** [strings.TrimSpace(s)] *)
Definition TrimSpace (s : string) : string :=
  let l := trimLeft (String.length s) s in
  trimRight (String.length l) l.

End strings.

(** Go's slice expression [s[lo:hi]] on a string. *)
Definition byteSlice (s : string) (lo hi : nat) : string :=
  substring lo (hi - lo) s.

(** ** The two regular expressions of the parser

    Both are compiled with the multi-line flag, so [^] and [$] match at the
    start and end of every line and [.] never matches a newline: a match
    lies inside one line, and the matches of a text are found line by
    line. *)

Module regexp.

(** The groups of [^diff --git a/(.+) b/(.+)$] inside one line.  The first
    group is greedy, so the separator [" b/"] taken is the last one that
    leaves both groups non-empty.  [lastSepB i rest] is the index, counted
    from the end of ["diff --git a/"], of that separator in a line whose
    text from index [i] on is [rest]. *)
Definition headerPrefix : string := "diff --git a/".
Definition sepB : string := " b/".

Fixpoint lastSepB (i : nat) (rest : string) : option nat :=
  match rest with
  | EmptyString => None
  | String _ rest' =>
      match lastSepB (S i) rest' with
      | Some k => Some k
      | None =>
          if (1 <=? i)%nat && String.prefix sepB rest
             && (3 <? String.length rest)%nat
          then Some i else None
      end
  end.

(** Start of the second group in [line] (its end is the end of the line),
    when the whole line matches. *)
Definition headerGroupB (line : string) : option nat :=
  if String.prefix headerPrefix line then
    (fun k => (13 + k + 3)%nat) <$> lastSepB 0 (strings.dropBytes 13 line)
  else None.

(** One match of [FindAllStringSubmatchIndex]: of the six indices Go
    returns the program reads [match[0]], [match[4]] and [match[5]]. *)
Record submatch := { m0 : nat; m4 : nat; m5 : nat }.

Fixpoint findAllFrom (off : nat) (lines : list string) : list submatch :=
  match lines with
  | [] => []
  | l :: rest =>
      let next := (off + String.length l + 1)%nat in
      match headerGroupB l with
      | Some k =>
          {| m0 := off; m4 := (off + k)%nat; m5 := (off + String.length l)%nat |}
          :: findAllFrom next rest
      | None => findAllFrom next rest
      end
  end.

(** [diffHeaderRegex.FindAllStringSubmatchIndex(text, -1)] *)
Definition FindAllHeaders (text : string) : list submatch :=
  findAllFrom 0 (strings.Split text NL_byte).

(** [binaryFileRegex.MatchString(text)] for [(?m)^Binary files] *)
Definition MatchBinary (text : string) : bool :=
  existsb (String.prefix "Binary files") (strings.Split text NL_byte).

(** The structural keywords of [funcPattern] and [importPattern]. *)
Definition funcKeywords : list string :=
  ["func"; "def"; "class"; "void"; "export"; "function"].
Definition importKeywords : list string :=
  ["import"; "from"; "require"; "use"; "using"].

Definition signed (keywords : list string) (line : string) : bool :=
  match line with
  | String c rest =>
      (Ascii.eqb c "+"%char || Ascii.eqb c "-"%char)
      && existsb (fun kw => String.prefix kw rest) keywords
  | EmptyString => false
  end.

(** [funcPattern.MatchString(line)] and [importPattern.MatchString(line)]
    on one line of a diff (a string without newline, so [^] matches at its
    start only). *)
Definition MatchFunc (line : string) : bool := signed funcKeywords line.
Definition MatchImport (line : string) : bool := signed importKeywords line.

End regexp.

(** ** The parser: [GetStagedDiffFiles] *)

(** [FileChange] represents a single file change in git. *)
Record FileChange := {
  Path : string;        (* full path to the file *)
  ChangeType : string;  (* Added, Modified, Deleted, Renamed *)
  IsBinary : bool;      (* whether the file is binary *)
  Diff : string         (* the diff content for this file *)
}.

(** Outcome of a call: it returns a value, or the Go runtime panics (index
    out of range). *)
Inductive outcome (A : Type) : Type :=
| Returns (a : A)
| Panics.
Arguments Returns {A} a.
Arguments Panics {A}.

(** The [switch changeType[0]] of the parser. *)
Definition changeTypeStr (c : ascii) : string :=
  if Ascii.eqb c "A"%char then "Added"
  else if Ascii.eqb c "M"%char then "Modified"
  else if Ascii.eqb c "D"%char then "Deleted"
  else if Ascii.eqb c "R"%char then "Renamed"
  else "Modified".

(** The inner loop: the first header naming [filePath] decides the diff of
    the file; [next] is the start of the following match, or the length of
    the whole diff after the last one. *)
Fixpoint findFileDiff (diffOutput : string) (matches : list regexp.submatch)
    (fileChange : FileChange) : FileChange :=
  match matches with
  | [] => fileChange
  | mt :: later =>
      let filePathInDiff := byteSlice diffOutput (regexp.m4 mt) (regexp.m5 mt) in
      let filePath := Path fileChange in
      if String.eqb filePathInDiff filePath
         || strings.HasSuffix filePathInDiff ("/" +:+ filePath)
      then
        let diffStart := regexp.m0 mt in
        let diffEnd :=
          match later with
          | nxt :: _ => regexp.m0 nxt
          | [] => String.length diffOutput
          end in
        let fileDiff := byteSlice diffOutput diffStart diffEnd in
        {| Path := filePath;
           ChangeType := ChangeType fileChange;
           IsBinary := if regexp.MatchBinary fileDiff then true
                       else IsBinary fileChange;
           Diff := fileDiff |}
      else findFileDiff diffOutput later fileChange
  end.

(** One turn of the loop over the status lines: [Returns None] is a
    [continue], [Returns (Some fc)] appends [fc], and indexing an empty
    status code panics. *)
Definition statusLine (diffOutput line : string) : outcome (option FileChange) :=
  if String.eqb line EmptyString then Returns None
  else
    match strings.SplitN2 line TAB_byte with
    | [changeType; filePath] =>
        match String.get 0 changeType with
        | None => Panics
        | Some c0 =>
            let filePath :=
              if Ascii.eqb c0 "R"%char then
                match strings.SplitN2 filePath TAB_byte with
                | [_; newPath] => newPath
                | _ => filePath
                end
              else filePath in
            let fileChange :=
              {| Path := filePath; ChangeType := changeTypeStr c0;
                 IsBinary := false; Diff := EmptyString |} in
            Returns (Some (findFileDiff diffOutput
                             (regexp.FindAllHeaders diffOutput) fileChange))
        end
    | _ => Returns None
    end.

Fixpoint parseLines (diffOutput : string) (fileListLines : list string)
    (fileChanges : list FileChange) : outcome (list FileChange) :=
  match fileListLines with
  | [] => Returns fileChanges
  | line :: rest =>
      match statusLine diffOutput line with
      | Panics => Panics
      | Returns None => parseLines diffOutput rest fileChanges
      | Returns (Some fc) => parseLines diffOutput rest (fileChanges ++ [fc])
      end
  end.

Definition fileListLines (fileListOutput : string) : list string :=
  strings.Split (strings.TrimSpace fileListOutput) NL_byte.

(** [GetStagedDiffFiles], as a function of what the two git commands
    print: the raw diff and the name-status listing. *)
Definition GetStagedDiffFiles (diffOutput fileListOutput : string)
    : outcome (list FileChange) :=
  if String.eqb diffOutput EmptyString then Returns []
  else parseLines diffOutput (fileListLines fileListOutput) [].

(** ** Machine numbers *)

(** Go's [int]: the result of an arithmetic operation wraps around. *)
Definition wrap64 (z : Z) : Z := (z + 2 ^ 63) mod 2 ^ 64 - 2 ^ 63.

Definition float64 : Type := spec_float.
Definition prec : Z := 53.
Definition emax : Z := 1024.

(** [float64(n)] for an [int] [n]: rounded to nearest, ties to even. *)
Definition float64_of_int (n : Z) : float64 := binary_normalize prec emax n 0 false.

(** The constant [0.8] as a [float64]: [0x3FE999999999999A], that is
    [7205759403792794 * 2^-53], the double nearest to 4/5. *)
Definition const_0_8 : float64 := S754_finite false 7205759403792794 (-53).

Definition float64_mul (x y : float64) : float64 := SFmul prec emax x y.

(** [int(f)]: the fraction is discarded.  Infinities and NaN convert to the
    smallest [int], as on amd64; the product below is never one of them. *)
Definition int_of_float64 (f : float64) : Z :=
  match f with
  | S754_zero _ => 0
  | S754_finite s m e =>
      cond_Zopp s (if 0 <=? e then Z.pos m * 2 ^ e else Z.pos m / 2 ^ (- e))
  | _ => - 2 ^ 63
  end.

(** ** The digest: [PrepareSmartDiff] *)

(** [sb.WriteString] in sequence. *)
Fixpoint writeAll (pieces : list string) : string :=
  match pieces with
  | [] => EmptyString
  | p :: rest => p +:+ writeAll rest
  end.

(** [fmt.Sprintf("%d", n)] *)
Definition fmt_d (n : Z) : string := pretty n.

Definition len {A} (l : list A) : Z := Z.of_nat (length l).

(** The counting loop: one counter per change type, one for binary files. *)
Definition countType (t : string) (fileChanges : list FileChange) : Z :=
  len (filter (fun fc => ChangeType fc = t) fileChanges).
Definition countBinary (fileChanges : list FileChange) : Z :=
  len (filter (fun fc => IsBinary fc = true) fileChanges).

Definition statistics (fileChanges : list FileChange) : string :=
  let renamed := countType "Renamed" fileChanges in
  let binary := countBinary fileChanges in
  "- Added: " +:+ fmt_d (countType "Added" fileChanges) +:+ NL
  +:+ "- Modified: " +:+ fmt_d (countType "Modified" fileChanges) +:+ NL
  +:+ "- Deleted: " +:+ fmt_d (countType "Deleted" fileChanges) +:+ NL
  +:+ (if 0 <? renamed then "- Renamed: " +:+ fmt_d renamed +:+ NL
       else EmptyString)
  +:+ (if 0 <? binary then "- Binary files: " +:+ fmt_d binary +:+ NL
       else EmptyString).

(** The directory of a path: its first folder, or [root]. *)
Definition dirOf (path : string) : string :=
  match strings.Split path slash_byte with
  | dir :: _ :: _ => dir
  | _ => "root"
  end.

(** [dirGroups[dir] = append(dirGroups[dir], fc.Path)] for every file. *)
Definition addToGroup (groups : gmap string (list string)) (fc : FileChange)
    : gmap string (list string) :=
  let dir := dirOf (Path fc) in
  <[dir := List.app (default [] (groups !! dir)) [Path fc]]> groups.

Definition dirGroups (fileChanges : list FileChange) : gmap string (list string) :=
  foldl addToGroup ∅ fileChanges.

(** [for dir, files := range dirGroups]: Go visits every entry once, in an
    order the language leaves unspecified (the runtime picks it afresh at
    each loop). *)
Definition rangeOrder (groups : gmap string (list string))
    (order : list (string * list string)) : Prop :=
  order ≡ₚ map_to_list groups.

Definition groupLine (g : string * list string) : string :=
  "- " +:+ g.1 +:+ ": " +:+ fmt_d (len g.2) +:+ " files" +:+ NL.

Definition directorySection (groups : gmap string (list string))
    (order : list (string * list string)) : string :=
  if (1 <? size groups)%nat then
    NL +:+ "Changes by directory:" +:+ NL +:+ writeAll (map groupLine order)
  else EmptyString.

Definition fileLine (fc : FileChange) : string :=
  "- " +:+ ChangeType fc +:+ ": " +:+ Path fc +:+ NL.

(** Budget: [int(float64(maxTokens) * 0.8)] tokens for the diffs, shared
    evenly; Go's integer division truncates toward zero. *)
Definition fileDiffBudget (maxTokens : Z) : Z :=
  int_of_float64 (float64_mul (float64_of_int maxTokens) const_0_8).

Definition tokensPerFile (maxTokens : Z) (fileCount : Z) : Z :=
  Z.quot (fileDiffBudget maxTokens) fileCount.

(** The right-hand side of [diffChars > tokensPerFile*4]. *)
Definition charBudget (tokensPerFile : Z) : Z := wrap64 (tokensPerFile * 4).

(** A line is important when [funcPattern] or [importPattern] matches it. *)
Definition isImportant (line : string) : bool :=
  regexp.MatchFunc line || regexp.MatchImport line.

(** [diffLines[lo:hi]] *)
Definition lineSlice (diffLines : list string) (lo hi : Z) : list string :=
  take (Z.to_nat hi - Z.to_nat lo) (drop (Z.to_nat lo) diffLines).

(** The loop that collects the important chunks: [rest] are the lines from
    index [i] on, [chunkStart] is [-1] while no chunk is open. *)
Fixpoint scanChunks (diffLines : list string) (i : Z) (rest : list string)
    (chunkStart : Z) (importantChunks : list string) : Z * list string :=
  match rest with
  | [] => (chunkStart, importantChunks)
  | line :: rest' =>
      if isImportant line then
        scanChunks diffLines (i + 1) rest'
          (if chunkStart =? -1 then i else chunkStart) importantChunks
      else if negb (chunkStart =? -1) && (chunkStart + 4 <? i) then
        scanChunks diffLines (i + 1) rest' (-1)
          (if chunkStart <? i - 1 then
             importantChunks
             ++ [strings.Join (lineSlice diffLines chunkStart i) NL]
           else importantChunks)
      else scanChunks diffLines (i + 1) rest' chunkStart importantChunks
  end.

Definition importantChunksOf (diffLines : list string) : list string :=
  (scanChunks diffLines 0 diffLines (-1) []).2.

Definition maxChunks : nat := 3.

Definition truncationMarker : string := NL +:+ "... (diff truncated) ..." +:+ NL.

Definition chunkSeparator : string := NL +:+ "---" +:+ NL.

(** What is written after the marker: up to three chunks, if there is one. *)
Definition importantSection (importantChunks : list string) : string :=
  if (0 <? length importantChunks)%nat then
    NL +:+ "Important changes:" +:+ NL
    +:+ writeAll (map (fun chunk => chunk +:+ chunkSeparator)
                      (take maxChunks importantChunks))
  else EmptyString.

(** The body written for a text file that is not deleted. *)
Definition diffPortion (tokensPerFile : Z) (diff : string) : string :=
  if negb (String.eqb diff EmptyString) then
    let diffChars := Z.of_nat (String.length diff) in
    if charBudget tokensPerFile <? diffChars then
      let diffLines := strings.Split diff NL_byte in
      if (5 <? length diffLines)%nat then
        strings.Join (take 5 diffLines) NL +:+ truncationMarker
        +:+ importantSection (importantChunksOf diffLines)
      else diff
    else diff
  else "(No diff content available)" +:+ NL.

Definition sectionHeader (fc : FileChange) : string :=
  NL +:+ "### " +:+ ChangeType fc +:+ ": " +:+ Path fc.

(** One turn of the loop over the files. *)
Definition fileSection (tokensPerFile : Z) (fc : FileChange) : string :=
  if IsBinary fc then sectionHeader fc +:+ " (binary file)" +:+ NL
  else
    sectionHeader fc +:+ NL
    +:+ (if String.eqb (ChangeType fc) "Deleted" then "File was deleted." +:+ NL
         else diffPortion tokensPerFile (Diff fc)).

(** Everything written before the per-file sections. *)
Definition digestHead (order : list (string * list string))
    (fileChanges : list FileChange) : string :=
  "Commit includes " +:+ fmt_d (len fileChanges) +:+ " files:" +:+ NL
  +:+ statistics fileChanges
  +:+ directorySection (dirGroups fileChanges) order
  +:+ NL +:+ "Changed files:" +:+ NL
  +:+ writeAll (map fileLine fileChanges)
  +:+ NL +:+ "Selected diff content:" +:+ NL.

(** The digest built from the file changes, the directory groups being
    visited in the order [order]; no file at all returns the empty string
    before anything is written. *)
Definition smartDiff (order : list (string * list string))
    (fileChanges : list FileChange) (maxTokens : Z) : string :=
  if len fileChanges =? 0 then EmptyString
  else
    digestHead order fileChanges
    +:+ writeAll (map (fileSection (tokensPerFile maxTokens (len fileChanges)))
                      fileChanges).

(** [PrepareSmartDiff] once the file changes are known: every order of the
    range loop gives one possible result. *)
Definition PrepareSmartDiffOn (fileChanges : list FileChange) (maxTokens : Z)
    (out : string) : Prop :=
  ∃ order, rangeOrder (dirGroups fileChanges) order
           ∧ out = smartDiff order fileChanges maxTokens.

(** [PrepareSmartDiff], as a relation between what git prints, the token
    limit and the outcome of the call. *)
Definition PrepareSmartDiff (diffOutput fileListOutput : string) (maxTokens : Z)
    (res : outcome string) : Prop :=
  match GetStagedDiffFiles diffOutput fileListOutput with
  | Panics => res = Panics
  | Returns fileChanges =>
      ∃ out, res = Returns out ∧ PrepareSmartDiffOn fileChanges maxTokens out
  end.

(** The order of the range loop that [map_to_list] happens to give, to run
    the digest on examples. *)
Definition smartDiffRun (fileChanges : list FileChange) (maxTokens : Z) : string :=
  smartDiff (map_to_list (dirGroups fileChanges)) fileChanges maxTokens.

(** ** The prompt limit: [EstimateTokens] and [TruncateInput] (package [llm]) *)

(** [strings.Fields(s)]: the maximal runs of bytes between white-space
    runes.  [skip] counts the bytes still to pass of the white-space rune
    being read, [cur] is the field read so far. *)
Fixpoint fieldsFrom (skip : nat) (cur : string) (s : string) : list string :=
  match s with
  | EmptyString => if String.eqb cur EmptyString then [] else [cur]
  | String c s' =>
      match skip with
      | S k => fieldsFrom k cur s'
      | O =>
          match strings.leadingSpace s with
          | Some n =>
              (if String.eqb cur EmptyString then [] else [cur])
              ++ fieldsFrom (n - 1) EmptyString s'
          | None => fieldsFrom 0 (cur +:+ String c EmptyString) s'
          end
      end
  end.

Definition Fields (s : string) : list string := fieldsFrom 0 EmptyString s.

(** [EstimateTokens] provides a simple word-based token estimation. *)
Definition EstimateTokens (text : string) : Z := len (Fields text).

Definition truncatedWord : string := "[...truncated...]".

(** [TruncateInput]: the prompt as it is when it has no more words than
    [maxTokens]; otherwise the first and the last [maxTokens/2] words around
    the word [truncatedWord].  The slice expression [words[:keepTokens]]
    panics when [keepTokens] is negative (or beyond the words). *)
Definition TruncateInput (prompt : string) (maxTokens : Z) : outcome (string * bool) :=
  let tokens := EstimateTokens prompt in
  if tokens <=? maxTokens then Returns (prompt, false)
  else
    let words := Fields prompt in
    let keepTokens := Z.quot maxTokens 2 in
    if maxTokens <? len words then
      if (keepTokens <? 0) || (len words <? keepTokens) then Panics
      else
        let truncated :=
          take (Z.to_nat keepTokens) words
          ++ truncatedWord :: drop (Z.to_nat (len words - keepTokens)) words in
        Returns (strings.Join truncated " ", true)
    else Returns (prompt, false).

(** ** Vocabulary of the statements *)

(** [sub] occurs in [s]. *)
Fixpoint contains (s sub : string) : bool :=
  String.prefix sub s
  || match s with
     | String _ s' => contains s' sub
     | EmptyString => false
     end.

(** The same record with another diff text. *)
Definition withDiff (fc : FileChange) (diff : string) : FileChange :=
  {| Path := Path fc; ChangeType := ChangeType fc;
     IsBinary := IsBinary fc; Diff := diff |}.

(** The number of newline bytes of [s]: splitting [s] at newlines gives
    one piece more. *)
Fixpoint newlines (s : string) : nat :=
  match s with
  | EmptyString => 0
  | String c rest => (if Ascii.eqb c NL_byte then 1 else 0) + newlines rest
  end.

(** The lines [l], every one of them ended by a newline. *)
Definition terminated (l : list string) : string :=
  writeAll (map (fun line => line +:+ NL) l).

(** The line holds a tab. *)
Fixpoint hasTab (line : string) : bool :=
  match line with
  | EmptyString => false
  | String c rest => Ascii.eqb c TAB_byte || hasTab rest
  end.

(** The line starts with a tab: its status code is empty. *)
Definition startsWithTab (line : string) : bool :=
  match line with
  | String c _ => Ascii.eqb c TAB_byte
  | EmptyString => false
  end.

(** The recognised keywords, of either pattern. *)
Definition keywords : list string :=
  regexp.funcKeywords ++ regexp.importKeywords.

(** [chunk] is a run of lines of [diffLines]: it starts at an important
    line, ends just before a line that is not important, and spans five
    lines or more. *)
Definition emittedRun (diffLines : list string) (chunk : string) : Prop :=
  ∃ (lo hi : nat) (first closer : string),
    (lo + 5 ≤ hi)%nat
    ∧ diffLines !! lo = Some first ∧ isImportant first = true
    ∧ diffLines !! hi = Some closer ∧ isImportant closer = false
    ∧ chunk = strings.Join (lineSlice diffLines (Z.of_nat lo) (Z.of_nat hi)) NL.

(** [mrs] is [m] shifted right by [k] bits: the quotient, the last bit
    shifted out (round bit) and whether a lower bit was set (sticky bit). *)
Definition shifted (m k : Z) (mrs : shr_record) : Prop :=
  0 ≤ shr_m mrs
  ∧ ∃ t u, m = shr_m mrs * 2 ^ k + t ∧ 0 ≤ t < 2 ^ k
           ∧ 2 * t = (if shr_r mrs then 2 ^ k else 0) + u ∧ 0 ≤ u < 2 ^ k
           ∧ (shr_s mrs = false ↔ u = 0).

(** The matches [matches] of the header expression in [text]: each starts
    at a header, and the next one (or the end of the text) lies past the 13
    bytes [diff --git a/]. *)
Fixpoint headersAt (text : string) (matches : list regexp.submatch) : Prop :=
  match matches with
  | [] => True
  | mt :: later =>
      String.prefix regexp.headerPrefix (strings.dropBytes (regexp.m0 mt) text) = true
      ∧ (regexp.m0 mt + 13
         ≤ match later with
           | nxt :: _ => regexp.m0 nxt
           | [] => String.length text
           end)%nat
      ∧ headersAt text later
  end.

(** The lines of [diffLines] from index [r.1] up to index [r.2], joined. *)
Definition chunkOf (diffLines : list string) (r : nat * nat) : string :=
  strings.Join (lineSlice diffLines (Z.of_nat r.1) (Z.of_nat r.2)) NL.

(** Ranges of at least five lines, below [n], in increasing order and
    without overlap: each starts after the end of the one before. *)
Fixpoint runsFrom (from n : nat) (ranges : list (nat * nat)) : Prop :=
  match ranges with
  | [] => True
  | r :: rest =>
      (from ≤ r.1)%nat ∧ (r.1 + 5 ≤ r.2)%nat ∧ (r.2 < n)%nat
      ∧ runsFrom (S r.2) n rest
  end.

(** No white-space rune starts inside [w] when [w] is followed by [rest]. *)
Fixpoint cleanBefore (w rest : string) : Prop :=
  match w with
  | EmptyString => True
  | String _ w' => strings.leadingSpace (w +:+ rest) = None ∧ cleanBefore w' rest
  end.

(** A word: not empty, and without white space. *)
Definition isWord (w : string) : Prop := w ≠ EmptyString ∧ cleanBefore w EmptyString.

(** ** Sample inputs *)

Definition lines (l : list string) : string := strings.Join l NL.

(** A modified text file with a three-line change. *)
Definition sampleDiff : string :=
  lines ["diff --git a/foo/a.go b/foo/a.go"; "index 1..2"; "--- a/foo/a.go";
         "+++ b/foo/a.go"; "@@ -1 +1,2 @@"; "-x"; "+y"; "+z"; EmptyString].

Definition sampleChange : FileChange :=
  {| Path := "foo/a.go"; ChangeType := "Modified"; IsBinary := false;
     Diff := sampleDiff |}.

(** A diff of exactly five lines. *)
Definition fiveLineChange : FileChange :=
  {| Path := "b.txt"; ChangeType := "Modified"; IsBinary := false;
     Diff := lines ["diff --git a/b.txt b/b.txt"; "--- a/b.txt"; "+++ b/b.txt";
                    "@@ -1 +1 @@"; "+hello"] |}.

(** The same five lines, the last one ended by a newline too. *)
Definition fiveTerminatedChange : FileChange :=
  withDiff fiveLineChange (Diff fiveLineChange +:+ NL).

Definition binaryChange : FileChange :=
  {| Path := "img/logo.png"; ChangeType := "Added"; IsBinary := true;
     Diff := lines ["diff --git a/img/logo.png b/img/logo.png";
                    "Binary files /dev/null and b/img/logo.png differ";
                    EmptyString] |}.

Definition deletedChange : FileChange :=
  {| Path := "old.go"; ChangeType := "Deleted"; IsBinary := false;
     Diff := lines ["diff --git a/old.go b/old.go"; "--- a/old.go";
                    "+++ /dev/null"; "@@ -1 +0,0 @@"; "-func gone() {}";
                    EmptyString] |}.

(** Six lines of header and context, one added function, five lines of
    context: a single important line, at index 6. *)
Definition isolatedLines : list string :=
  ["diff --git a/m.go b/m.go"; "--- a/m.go"; "+++ b/m.go"; "@@ -1,5 +1,6 @@";
   " package m"; " "; "+func f() {}"; " var a = 1"; " var b = 2"; " var c = 3";
   " var d = 4"; " var e = 5"].

(** Important lines at indices 6, 11 and 13, one plain line between the
    last two. *)
Definition gapLines : list string :=
  ["diff --git a/m.go b/m.go"; "--- a/m.go"; "+++ b/m.go"; "@@ -1,9 +1,12 @@";
   " package m"; " "; "+func f() {}"; " var a = 1"; " var b = 2"; " var c = 3";
   " var d = 4"; "+func g() {}"; " var e = 5"; "+func h() {}"; " var p = 6";
   " var q = 7"; " var r = 8"; " var s = 9"; " var t = 0"].

(** A raw diff whose second line is an added function, and its listing. *)
Definition earlyDiff : string :=
  lines ["diff --git a/f.go b/f.go"; "+func a() {}"; "+x"; "+y"; "+z"; "+w";
         " end"; EmptyString].
Definition earlyListing : string := "M" +:+ TAB +:+ "f.go" +:+ NL.

(** Two added functions at the very end of a diff. *)
Definition trailingLines : list string :=
  ["diff --git a/m.go b/m.go"; "--- a/m.go"; "+++ b/m.go"; "@@ -1,2 +1,4 @@";
   " package m"; " "; "+func f() {}"; "+func g() {}"].

Definition earlyChange : FileChange :=
  {| Path := "f.go"; ChangeType := "Modified"; IsBinary := false;
     Diff := earlyDiff |}.

Definition isolatedChange : FileChange :=
  {| Path := "m.go"; ChangeType := "Modified"; IsBinary := false;
     Diff := lines isolatedLines |}.


(** A listing whose second line has an empty status code. *)
Definition emptyCodeListing : string :=
  "M" +:+ TAB +:+ "foo/a.go" +:+ NL +:+ TAB +:+ "b.go" +:+ NL.

(** Two files in two directories. *)
Definition twoDirDiff : string :=
  lines ["diff --git a/api/x.go b/api/x.go"; "--- a/api/x.go"; "+++ b/api/x.go";
         "@@ -1 +1 @@"; "-a"; "+b";
         "diff --git a/web/y.go b/web/y.go"; "--- a/web/y.go"; "+++ b/web/y.go";
         "@@ -1 +1 @@"; "-c"; "+d"; EmptyString].
Definition twoDirListing : string :=
  "M" +:+ TAB +:+ "api/x.go" +:+ NL +:+ "M" +:+ TAB +:+ "web/y.go" +:+ NL.

Definition twoDirChanges : list FileChange :=
  [ {| Path := "api/x.go"; ChangeType := "Modified"; IsBinary := false;
       Diff := lines ["diff --git a/api/x.go b/api/x.go"; "--- a/api/x.go";
                      "+++ b/api/x.go"; "@@ -1 +1 @@"; "-a"; "+b"; EmptyString] |};
    {| Path := "web/y.go"; ChangeType := "Modified"; IsBinary := false;
       Diff := lines ["diff --git a/web/y.go b/web/y.go"; "--- a/web/y.go";
                      "+++ b/web/y.go"; "@@ -1 +1 @@"; "-c"; "+d"; EmptyString] |} ].

Definition apiFirst : list (string * list string) :=
  [("api", ["api/x.go"]); ("web", ["web/y.go"])].
Definition webFirst : list (string * list string) :=
  [("web", ["web/y.go"]); ("api", ["api/x.go"])].

(** * Properties *)

(** ** Strings and written pieces *)

Lemma append_cons (x : ascii) (a b : string) :
  String x a +:+ b = String x (a +:+ b).
Proof. reflexivity. Qed.

Lemma append_assoc (a b c : string) : (a +:+ b) +:+ c = a +:+ b +:+ c.
Proof.
  induction a as [|x a IH]; [done|].
  by rewrite !append_cons, IH.
Qed.

Lemma append_empty_r (a : string) : a +:+ EmptyString = a.
Proof.
  induction a as [|x a IH]; [done|].
  by rewrite append_cons, IH.
Qed.

Lemma writeAll_app (l1 l2 : list string) :
  writeAll (l1 ++ l2) = writeAll l1 +:+ writeAll l2.
Proof.
  induction l1 as [|p l1 IH]; [done|].
  cbn [writeAll app]. by rewrite IH, append_assoc.
Qed.

Lemma eqb_string_false (a b : string) : a ≠ b → String.eqb a b = false.
Proof. intros. by apply String.eqb_neq. Qed.

Lemma len_app {A} (l1 l2 : list A) : len (l1 ++ l2) = len l1 + len l2.
Proof. unfold len. rewrite length_app. lia. Qed.

Lemma len_cons {A} (x : A) (l : list A) : len (x :: l) = 1 + len l.
Proof. unfold len. cbn [length]. lia. Qed.

Lemma len_nonneg {A} (l : list A) : 0 ≤ len l.
Proof. unfold len. lia. Qed.

(** No overflow in [tokensPerFile*4] for budgets that fit. *)
Lemma charBudget_exact (perFile : Z) :
  - 2 ^ 61 ≤ perFile < 2 ^ 61 → charBudget perFile = perFile * 4.
Proof.
  intros H. unfold charBudget, wrap64.
  rewrite Z.mod_small; lia.
Qed.

(** ** The sections of the digest *)

Lemma smartDiff_sections order fileChanges maxTokens :
  fileChanges ≠ [] →
  smartDiff order fileChanges maxTokens
  = digestHead order fileChanges
    +:+ writeAll (map (fileSection (tokensPerFile maxTokens (len fileChanges)))
                      fileChanges).
Proof.
  intros Hne. unfold smartDiff.
  destruct fileChanges as [|fc l]; [done|].
  rewrite len_cons. pose proof (len_nonneg l).
  by destruct (Z.eqb_spec (1 + len l) 0); [lia|].
Qed.

Lemma smartDiff_split order before fc after maxTokens :
  let fileChanges := before ++ fc :: after in
  let perFile := tokensPerFile maxTokens (len fileChanges) in
  smartDiff order fileChanges maxTokens
  = digestHead order fileChanges
    +:+ writeAll (map (fileSection perFile) before)
    +:+ fileSection perFile fc
    +:+ writeAll (map (fileSection perFile) after).
Proof.
  intros fileChanges perFile.
  rewrite smartDiff_sections by (subst fileChanges; by destruct before).
  subst fileChanges. by rewrite map_app, writeAll_app.
Qed.

Lemma diffPortion_within perFile diff :
  diff ≠ EmptyString →
  Z.of_nat (String.length diff) ≤ charBudget perFile →
  diffPortion perFile diff = diff.
Proof.
  intros Hne Hfit. unfold diffPortion.
  rewrite eqb_string_false by done. cbn [negb].
  by destruct (Z.ltb_spec (charBudget perFile) (Z.of_nat (String.length diff)));
    [lia|].
Qed.

Lemma diffPortion_over perFile diff :
  diff ≠ EmptyString →
  charBudget perFile < Z.of_nat (String.length diff) →
  diffPortion perFile diff
  = let diffLines := strings.Split diff NL_byte in
    if (5 <? length diffLines)%nat then
      strings.Join (take 5 diffLines) NL +:+ truncationMarker
      +:+ importantSection (importantChunksOf diffLines)
    else diff.
Proof.
  intros Hne Hover. unfold diffPortion.
  rewrite eqb_string_false by done. cbn [negb].
  by destruct (Z.ltb_spec (charBudget perFile) (Z.of_nat (String.length diff)));
    [|lia].
Qed.

Lemma fileSection_text perFile fc :
  IsBinary fc = false → ChangeType fc ≠ "Deleted" →
  fileSection perFile fc
  = sectionHeader fc +:+ NL +:+ diffPortion perFile (Diff fc).
Proof.
  intros Hbin Hdel. unfold fileSection.
  by rewrite Hbin, eqb_string_false.
Qed.



(** ** Binary and deleted files *)

Lemma fileSection_binary perFile fc :
  IsBinary fc = true →
  fileSection perFile fc = sectionHeader fc +:+ " (binary file)" +:+ NL.
Proof. intros Hbin. unfold fileSection. by rewrite Hbin. Qed.

Lemma fileSection_deleted perFile fc :
  IsBinary fc = false → ChangeType fc = "Deleted" →
  fileSection perFile fc = sectionHeader fc +:+ NL +:+ "File was deleted." +:+ NL.
Proof. intros Hbin Hdel. unfold fileSection. by rewrite Hbin, Hdel. Qed.

Lemma fileSection_withDiff perFile fc diff :
  IsBinary fc = true ∨ ChangeType fc = "Deleted" →
  fileSection perFile (withDiff fc diff) = fileSection perFile fc.
Proof.
  intros Hkind. unfold fileSection, withDiff, sectionHeader.
  cbn [IsBinary ChangeType Path Diff].
  destruct (IsBinary fc); [done|].
  destruct Hkind as [?|Hdel]; [done|]. by rewrite Hdel.
Qed.

(** What the digest reads of a file besides its section. *)
Lemma countType_withDiff t before fc diff after :
  countType t (before ++ withDiff fc diff :: after)
  = countType t (before ++ fc :: after).
Proof.
  unfold countType. rewrite !filter_app, !filter_cons. cbn [withDiff ChangeType].
  destruct (decide (ChangeType fc = t)); by rewrite !len_app, ?len_cons.
Qed.

Lemma countBinary_withDiff before fc diff after :
  countBinary (before ++ withDiff fc diff :: after)
  = countBinary (before ++ fc :: after).
Proof.
  unfold countBinary. rewrite !filter_app, !filter_cons. cbn [withDiff IsBinary].
  destruct (decide (IsBinary fc = true)); by rewrite !len_app, ?len_cons.
Qed.

Lemma dirGroups_withDiff before fc diff after :
  dirGroups (before ++ withDiff fc diff :: after)
  = dirGroups (before ++ fc :: after).
Proof. unfold dirGroups. by rewrite !foldl_app. Qed.

Lemma digestHead_withDiff order before fc diff after :
  digestHead order (before ++ withDiff fc diff :: after)
  = digestHead order (before ++ fc :: after).
Proof.
  unfold digestHead, statistics.
  rewrite !countType_withDiff, countBinary_withDiff, dirGroups_withDiff.
  by rewrite !len_app, !len_cons, !map_app.
Qed.

Lemma smartDiff_withDiff order before fc diff after maxTokens :
  IsBinary fc = true ∨ ChangeType fc = "Deleted" →
  smartDiff order (before ++ withDiff fc diff :: after) maxTokens
  = smartDiff order (before ++ fc :: after) maxTokens.
Proof.
  intros Hkind.
  rewrite !smartDiff_sections by (by destruct before).
  rewrite digestHead_withDiff, !len_app, !len_cons, !map_app.
  cbn [map]. by rewrite fileSection_withDiff.
Qed.

(** C8: a binary file, and a deleted file, has in the digest a section that
    is its marker alone: the header line ending in [(binary file)], or the
    header line followed by [File was deleted.].  The digest is its head, the
    sections of the files before, this marker, and the sections of the files
    after; and the digest as a whole is the same whatever the diff text of
    such a file is, for every budget and every order of the directory
    groups: no part of its content is read. *)
Theorem binary_and_deleted_marker_only
    (order : list (string * list string)) (before after : list FileChange)
    (fc : FileChange) (maxTokens : Z) (otherDiff : string) :
  let fileChanges := before ++ fc :: after in
  let perFile := tokensPerFile maxTokens (len fileChanges) in
  IsBinary fc = true ∨ ChangeType fc = "Deleted" →
  fileSection perFile fc
  = (if IsBinary fc then sectionHeader fc +:+ " (binary file)" +:+ NL
     else sectionHeader fc +:+ NL +:+ "File was deleted." +:+ NL)
  ∧ smartDiff order fileChanges maxTokens
    = digestHead order fileChanges
      +:+ writeAll (map (fileSection perFile) before)
      +:+ (if IsBinary fc then sectionHeader fc +:+ " (binary file)" +:+ NL
           else sectionHeader fc +:+ NL +:+ "File was deleted." +:+ NL)
      +:+ writeAll (map (fileSection perFile) after)
  ∧ smartDiff order (before ++ withDiff fc otherDiff :: after) maxTokens
    = smartDiff order fileChanges maxTokens
  ∧ ∀ out,
      PrepareSmartDiffOn (before ++ withDiff fc otherDiff :: after) maxTokens out
      ↔ PrepareSmartDiffOn fileChanges maxTokens out.
Proof.
  intros fileChanges perFile Hkind.
  assert (fileSection perFile fc
          = (if IsBinary fc then sectionHeader fc +:+ " (binary file)" +:+ NL
             else sectionHeader fc +:+ NL +:+ "File was deleted." +:+ NL))
    as Hmarker.
  { destruct (IsBinary fc) eqn:Hbin.
    + by apply fileSection_binary.
    + destruct Hkind as [|Hdel]; [done|]. by apply fileSection_deleted. }
  split; [exact Hmarker|]. split; [|split].
  - rewrite <- Hmarker. apply smartDiff_split.
  - by apply smartDiff_withDiff.
  - intros out. unfold PrepareSmartDiffOn, fileChanges.
    rewrite dirGroups_withDiff.
    split; intros (ord & Hord & ->); exists ord; split; try done.
    + by apply smartDiff_withDiff.
    + symmetry. by apply smartDiff_withDiff.
Qed.

Lemma binary_and_deleted_marker_only_witness :
  (IsBinary binaryChange = true ∨ ChangeType binaryChange = "Deleted")
  ∧ (IsBinary deletedChange = true ∨ ChangeType deletedChange = "Deleted")
  ∧ fileSection (tokensPerFile 4000 (len [binaryChange; deletedChange])) binaryChange
    = NL +:+ "### Added: img/logo.png (binary file)" +:+ NL
  ∧ fileSection (tokensPerFile 4000 (len [binaryChange; deletedChange])) deletedChange
    = NL +:+ "### Deleted: old.go" +:+ NL +:+ "File was deleted." +:+ NL.
Proof.
  assert (IsBinary binaryChange = true ∨ ChangeType binaryChange = "Deleted")
    as Hbin by (by left).
  assert (IsBinary deletedChange = true ∨ ChangeType deletedChange = "Deleted")
    as Hdel by (by right).
  split; [done|]. split; [done|]. split.
  - exact (proj1 (binary_and_deleted_marker_only [] [] [deletedChange]
                    binaryChange 4000 EmptyString Hbin)).
  - exact (proj1 (binary_and_deleted_marker_only [] [binaryChange] []
                    deletedChange 4000 EmptyString Hdel)).
Defined.

(** ** Diffs over the budget *)

Lemma rangeOrder_exists (groups : gmap string (list string)) :
  rangeOrder groups (map_to_list groups).
Proof. by unfold rangeOrder. Qed.

(** ** Lines and newlines *)

(** Splitting at newlines gives one piece more than there are newlines. *)
Lemma length_Split (s : string) :
  length (strings.Split s NL_byte) = S (newlines s).
Proof.
  induction s as [|c s IH]; [done|]. cbn [strings.Split newlines].
  destruct (Ascii.eqb c NL_byte); cbn [length]; [by rewrite IH|].
  destruct (strings.Split s NL_byte); cbn [length] in *; lia.
Qed.

Lemma Split_line (line rest : string) :
  newlines line = 0%nat →
  strings.Split (line +:+ NL +:+ rest) NL_byte = line :: strings.Split rest NL_byte.
Proof.
  induction line as [|c line IH]; intros Hline.
  - change (EmptyString +:+ NL +:+ rest) with (String NL_byte rest).
    cbn [strings.Split]. by rewrite Ascii.eqb_refl.
  - cbn [newlines] in Hline. rewrite append_cons. cbn [strings.Split].
    destruct (Ascii.eqb c NL_byte); [done|]. by rewrite IH by lia.
Qed.

Lemma Split_last_line (line : string) :
  newlines line = 0%nat → strings.Split line NL_byte = [line].
Proof.
  induction line as [|c line IH]; [done|]. cbn [newlines strings.Split].
  destruct (Ascii.eqb c NL_byte); [done|]. intros Hline. by rewrite IH by lia.
Qed.

Lemma Split_terminated (head : list string) (rest : string) :
  Forall (fun line => newlines line = 0%nat) head →
  strings.Split (terminated head +:+ rest) NL_byte
  = head ++ strings.Split rest NL_byte.
Proof.
  unfold terminated. induction 1 as [|line head Hline _ IH]; [done|].
  cbn [map writeAll app]. rewrite !append_assoc, Split_line by done.
  by rewrite IH.
Qed.

Lemma Split_Join (l : list string) :
  l ≠ [] → Forall (fun line => newlines line = 0%nat) l →
  strings.Split (strings.Join l NL) NL_byte = l.
Proof.
  intros Hne Hl. induction Hl as [|line l Hline Hl IH]; [done|].
  destruct l as [|line' l].
  - by apply Split_last_line.
  - change (strings.Join (line :: line' :: l) NL)
      with (line +:+ NL +:+ strings.Join (line' :: l) NL).
    rewrite Split_line by done. by rewrite IH.
Qed.

(** C6, as the program has it.  A text file that is not deleted and whose
    non-empty diff is longer than the character budget is cut by the number
    of pieces its diff splits into at newlines, one more than its newlines.
    More than five pieces: the first five lines word for word, then the
    truncation marker, then the important chunks if any.  Five pieces or
    fewer: the whole diff and no marker.  In terms of lines: a diff that
    starts with five lines ended by a newline each, whatever follows them,
    nothing included, is cut after these five lines and gets the marker; a
    diff of at most five lines of which the last has no newline at its end
    is written whole. *)
Theorem over_budget_diff_truncation
    (order : list (string * list string)) (before after : list FileChange)
    (fc : FileChange) (maxTokens : Z) :
  let fileChanges := before ++ fc :: after in
  let perFile := tokensPerFile maxTokens (len fileChanges) in
  let diffLines := strings.Split (Diff fc) NL_byte in
  IsBinary fc = false →
  ChangeType fc ≠ "Deleted" →
  Diff fc ≠ EmptyString →
  charBudget perFile < Z.of_nat (String.length (Diff fc)) →
  ((5 < length diffLines)%nat →
   fileSection perFile fc
   = sectionHeader fc +:+ NL
     +:+ strings.Join (take 5 diffLines) NL +:+ truncationMarker
     +:+ importantSection (importantChunksOf diffLines))
  ∧ ((length diffLines ≤ 5)%nat →
     fileSection perFile fc = sectionHeader fc +:+ NL +:+ Diff fc)
  ∧ length diffLines = S (newlines (Diff fc))
  ∧ (∀ (head : list string) (rest : string),
       length head = 5%nat →
       Forall (fun line => newlines line = 0%nat) head →
       Diff fc = terminated head +:+ rest →
       fileSection perFile fc
       = sectionHeader fc +:+ NL
         +:+ strings.Join head NL +:+ truncationMarker
         +:+ importantSection
               (importantChunksOf (head ++ strings.Split rest NL_byte)))
  ∧ (∀ l : list string,
       (length l ≤ 5)%nat →
       Forall (fun line => newlines line = 0%nat) l →
       Diff fc = strings.Join l NL →
       fileSection perFile fc = sectionHeader fc +:+ NL +:+ Diff fc)
  ∧ smartDiff order fileChanges maxTokens
    = digestHead order fileChanges
      +:+ writeAll (map (fileSection perFile) before)
      +:+ fileSection perFile fc
      +:+ writeAll (map (fileSection perFile) after).
Proof.
  intros fileChanges perFile diffLines Hbin Hdel Hne Hover.
  assert ((5 < length diffLines)%nat →
          fileSection perFile fc
          = sectionHeader fc +:+ NL
            +:+ strings.Join (take 5 diffLines) NL +:+ truncationMarker
            +:+ importantSection (importantChunksOf diffLines)) as Hlong.
  { intros Hlong. rewrite fileSection_text, diffPortion_over by done.
    cbv zeta. fold diffLines.
    by destruct (Nat.ltb_spec 5 (length diffLines)); [|lia]. }
  assert ((length diffLines ≤ 5)%nat →
          fileSection perFile fc = sectionHeader fc +:+ NL +:+ Diff fc) as Hshort.
  { intros Hshort. rewrite fileSection_text, diffPortion_over by done.
    cbv zeta. fold diffLines.
    by destruct (Nat.ltb_spec 5 (length diffLines)); [lia|]. }
  split; [exact Hlong|]. split; [exact Hshort|].
  split; [apply length_Split|]. split; [|split].
  - intros head rest Hfive Hhead Hshape.
    assert (diffLines = head ++ strings.Split rest NL_byte) as Hlines.
    { subst diffLines. rewrite Hshape. by apply Split_terminated. }
    rewrite Hlong.
    + rewrite Hlines. by rewrite take_app_length'.
    + rewrite Hlines, length_app, length_Split. lia.
  - intros l Hfew Hl Hshape. apply Hshort.
    destruct l as [|line l]; [done|].
    subst diffLines. rewrite Hshape. by rewrite Split_Join.
  - apply smartDiff_split.
Qed.

Lemma over_budget_diff_truncation_witness :
  (IsBinary sampleChange = false
   ∧ ChangeType sampleChange ≠ "Deleted"
   ∧ Diff sampleChange ≠ EmptyString
   ∧ charBudget (tokensPerFile 20 (len [sampleChange]))
     < Z.of_nat (String.length (Diff sampleChange))
   ∧ (5 < length (strings.Split (Diff sampleChange) NL_byte))%nat)
  ∧ fileSection (tokensPerFile 20 (len [sampleChange])) sampleChange
    = sectionHeader sampleChange +:+ NL
      +:+ lines ["diff --git a/foo/a.go b/foo/a.go"; "index 1..2";
                 "--- a/foo/a.go"; "+++ b/foo/a.go"; "@@ -1 +1,2 @@"]
      +:+ truncationMarker.
Proof.
  assert (ChangeType sampleChange ≠ "Deleted") as Hdel by discriminate.
  assert (Diff sampleChange ≠ EmptyString) as Hne by discriminate.
  assert (charBudget (tokensPerFile 20 (len [sampleChange]))
          < Z.of_nat (String.length (Diff sampleChange))) as Hover
    by (by vm_compute).
  assert (5 < length (strings.Split (Diff sampleChange) NL_byte))%nat as Hlong
    by (vm_compute; lia).
  split; [by repeat split|].
  etrans.
  - exact (proj1 (over_budget_diff_truncation [] [] [] sampleChange 20
                    eq_refl Hdel Hne Hover) Hlong).
  - by vm_compute.
Defined.

(** C6, as stated, fails on a diff of exactly five lines, the last one
    without a newline at its end, that is over the budget: the section is the
    header and the five lines, and the truncation marker is nowhere in the
    digest. *)
Lemma five_line_diff_has_no_marker :
  (IsBinary fiveLineChange = false ∧ ChangeType fiveLineChange ≠ "Deleted")
  ∧ length (strings.Split (Diff fiveLineChange) NL_byte) = 5%nat
  ∧ charBudget (tokensPerFile 1 (len [fiveLineChange]))
    < Z.of_nat (String.length (Diff fiveLineChange))
  ∧ fileSection (tokensPerFile 1 (len [fiveLineChange])) fiveLineChange
    = sectionHeader fiveLineChange +:+ NL +:+ Diff fiveLineChange
  ∧ contains (smartDiffRun [fiveLineChange] 1) "(diff truncated)" = false
  ∧ PrepareSmartDiffOn [fiveLineChange] 1 (smartDiffRun [fiveLineChange] 1).
Proof.
  split; [split; [done|discriminate]|].
  split; [by vm_compute|]. split; [by vm_compute|].
  split; [by vm_compute|]. split; [by vm_compute|].
  exists (map_to_list (dirGroups [fiveLineChange])).
  split; [apply rangeOrder_exists|done].
Qed.

(** The same five lines with a newline at the end of the last one split
    into six pieces, and get the marker. *)
Example five_terminated_lines_get_marker :
  Diff fiveTerminatedChange
  = terminated ["diff --git a/b.txt b/b.txt"; "--- a/b.txt"; "+++ b/b.txt";
                "@@ -1 +1 @@"; "+hello"]
  ∧ length (strings.Split (Diff fiveTerminatedChange) NL_byte) = 6%nat
  ∧ charBudget (tokensPerFile 1 (len [fiveTerminatedChange]))
    < Z.of_nat (String.length (Diff fiveTerminatedChange))
  ∧ fileSection (tokensPerFile 1 (len [fiveTerminatedChange])) fiveTerminatedChange
    = sectionHeader fiveTerminatedChange +:+ NL
      +:+ Diff fiveLineChange +:+ truncationMarker.
Proof. repeat split; by vm_compute. Qed.

(** ** No file *)

Lemma PrepareSmartDiffOn_nil maxTokens out :
  PrepareSmartDiffOn [] maxTokens out ↔ out = EmptyString.
Proof.
  split.
  - by intros (order & _ & ->).
  - intros ->. exists []. split; [|done].
    unfold rangeOrder, dirGroups. cbn [foldl]. by rewrite map_to_list_empty.
Qed.

Lemma PrepareSmartDiff_no_diff fileListOutput maxTokens res :
  PrepareSmartDiff EmptyString fileListOutput maxTokens res
  ↔ res = Returns EmptyString.
Proof.
  unfold PrepareSmartDiff, GetStagedDiffFiles. cbn [String.eqb]. split.
  - intros (out & -> & Hout). by apply PrepareSmartDiffOn_nil in Hout as ->.
  - intros ->. exists EmptyString. split; [done|]. by apply PrepareSmartDiffOn_nil.
Qed.

(** C5, as the program has it: with no file change the digest is the empty
    string, with no header and no section; this is so when git prints no
    diff at all. *)
Theorem no_file_empty_digest (maxTokens : Z) :
  (∀ out, PrepareSmartDiffOn [] maxTokens out ↔ out = EmptyString)
  ∧ (∀ fileListOutput res,
       PrepareSmartDiff EmptyString fileListOutput maxTokens res
       ↔ res = Returns EmptyString).
Proof.
  split.
  - intros out. apply PrepareSmartDiffOn_nil.
  - intros fileListOutput res. apply PrepareSmartDiff_no_diff.
Qed.

(** C5, as stated, fails: the digest of no file is empty, so it has no
    header telling of 0 files. *)
Lemma no_file_no_header :
  PrepareSmartDiffOn [] 4000 EmptyString
  ∧ PrepareSmartDiff EmptyString EmptyString 4000 (Returns EmptyString)
  ∧ contains EmptyString "0 files" = false.
Proof.
  split; [by apply PrepareSmartDiffOn_nil|].
  split; [by apply PrepareSmartDiff_no_diff|done].
Qed.

(** ** The scan for important chunks *)

Lemma scan_app L i r1 r2 s c :
  scanChunks L i (r1 ++ r2) s c
  = scanChunks L (i + len r1) r2
      (scanChunks L i r1 s c).1 (scanChunks L i r1 s c).2.
Proof.
  revert i s c. induction r1 as [|line r1 IH]; intros i s c.
  - cbn [app scanChunks fst snd]. unfold len. cbn [length]. by rewrite Z.add_0_r.
  - rewrite len_cons, <- app_comm_cons. cbn [scanChunks].
    replace (i + (1 + len r1)) with (i + 1 + len r1) by lia.
    destruct (isImportant line); [apply IH|].
    destruct (negb (s =? -1) && (s + 4 <? i)); apply IH.
Qed.

(** An important line opens a chunk when none is open. *)
Lemma scan_open L i line r c :
  isImportant line = true →
  scanChunks L i (line :: r) (-1) c = scanChunks L (i + 1) r i c.
Proof. intros Himp. cbn [scanChunks]. by rewrite Himp. Qed.

(** A line that is not important closes the open chunk once it lies more
    than four lines past the start; the chunk is always kept. *)
Lemma scan_close L i line r s c :
  s ≠ -1 → s + 4 < i → isImportant line = false →
  scanChunks L i (line :: r) s c
  = scanChunks L (i + 1) r (-1) (c ++ [strings.Join (lineSlice L s i) NL]).
Proof.
  intros Hopen Hfar Himp. cbn [scanChunks]. rewrite Himp.
  destruct (Z.eqb_spec s (-1)); [done|].
  destruct (Z.ltb_spec (s + 4) i); [|lia].
  destruct (Z.ltb_spec s (i - 1)); [done|lia].
Qed.

(** While a chunk is open, important lines and the lines up to four past
    its start leave everything as it is. *)
Lemma scan_open_keep L i r s c :
  s ≠ -1 →
  (∀ (j : nat) line, r !! j = Some line →
     isImportant line = true ∨ i + Z.of_nat j ≤ s + 4) →
  scanChunks L i r s c = (s, c).
Proof.
  intros Hopen. revert i. induction r as [|line r IH]; intros i Hr; [done|].
  cbn [scanChunks].
  assert (scanChunks L (i + 1) r s c = (s, c)) as Hrest.
  { apply IH. intros j l Hj. destruct (Hr (S j) l Hj); [by left|right; lia]. }
  destruct (Z.eqb_spec s (-1)); [done|].
  destruct (isImportant line) eqn:Himp; [done|].
  destruct (Hr 0%nat line eq_refl) as [|Hnear]; [congruence|].
  by destruct (Z.ltb_spec (s + 4) i); [lia|].
Qed.

(** Without an open chunk, lines that are not important change nothing. *)
Lemma scan_closed_keep L i r c :
  Forall (fun line => isImportant line = false) r →
  scanChunks L i r (-1) c = (-1, c).
Proof.
  intros Hr. revert i. induction Hr as [|line r Himp _ IH]; intros i; [done|].
  cbn [scanChunks]. rewrite Himp. cbn. apply IH.
Qed.

(** The scan only adds chunks. *)
Lemma scan_extends L i r s c :
  ∃ later, (scanChunks L i r s c).2 = c ++ later.
Proof.
  revert i s c. induction r as [|line r IH]; intros i s c.
  - exists []. by rewrite app_nil_r.
  - cbn [scanChunks]. destruct (isImportant line); [apply IH|].
    destruct (negb (s =? -1) && (s + 4 <? i)); [|apply IH].
    destruct (s <? i - 1); [|apply IH].
    destruct (IH (i + 1) (-1) (c ++ [strings.Join (lineSlice L s i) NL]))
      as [later ->].
    eexists. by rewrite <- app_assoc.
Qed.

Lemma lineSlice_middle (pre body post : list string) :
  lineSlice (pre ++ body ++ post) (len pre) (len pre + len body) = body.
Proof.
  unfold lineSlice, len.
  rewrite <- Nat2Z.inj_add, !Nat2Z.id.
  replace (length pre + length body - length pre)%nat with (length body) by lia.
  by rewrite drop_app_length, take_app_length.
Qed.

(** A chunk opened by [first] while none is open runs up to the first line
    that is not important more than four lines further on. *)
Lemma scan_chunk L i first more closer c :
  0 ≤ i →
  isImportant first = true →
  (4 ≤ length more)%nat →
  (∀ (j : nat) line, (4 ≤ j)%nat → more !! j = Some line →
     isImportant line = true) →
  isImportant closer = false →
  scanChunks L i (first :: more ++ [closer]) (-1) c
  = (-1, c ++ [strings.Join (lineSlice L i (i + len (first :: more))) NL]).
Proof.
  intros Hi Hfirst Hlen Hmore Hcloser.
  rewrite scan_open, scan_app by done.
  rewrite (scan_open_keep L (i + 1) more i c).
  - cbn [fst snd]. rewrite scan_close; [|lia| |done].
    + by rewrite len_cons, Z.add_assoc.
    + unfold len. lia.
  - lia.
  - intros j line Hj. destruct (Nat.le_gt_cases 4 j); [left; eauto|right; lia].
Qed.

(** Every chunk the scan keeps is a run of at least five lines. *)
Lemma scan_runs L r i s c :
  0 ≤ i →
  drop (Z.to_nat i) L = r →
  s = -1 ∨ (0 ≤ s < i ∧ ∃ first, L !! Z.to_nat s = Some first
                                 ∧ isImportant first = true) →
  Forall (emittedRun L) c →
  Forall (emittedRun L) (scanChunks L i r s c).2.
Proof.
  revert i s c. induction r as [|line r IH]; intros i s c Hi Hdrop Hs Hc; [done|].
  assert (L !! Z.to_nat i = Some line) as Hline.
  { rewrite <- (Nat.add_0_r (Z.to_nat i)), <- lookup_drop. by rewrite Hdrop. }
  assert (drop (Z.to_nat (i + 1)) L = r) as Hdrop'.
  { replace (Z.to_nat (i + 1)) with (Z.to_nat i + 1)%nat by lia.
    rewrite <- drop_drop. by rewrite Hdrop. }
  cbn [scanChunks]. destruct (isImportant line) eqn:Himp.
  - apply IH; [lia|done| |done]. right.
    destruct (Z.eqb_spec s (-1)) as [->|Hne].
    + split; [lia|]. eauto.
    + destruct Hs as [|[Hrange Hfirst]]; [done|]. split; [lia|done].
  - destruct (Z.eqb_spec s (-1)) as [->|Hne]; cbn [negb andb].
    { apply IH; [lia|done|by left|done]. }
    destruct Hs as [|[Hrange (first & Hfirst & Hfimp)]]; [done|].
    destruct (Z.ltb_spec (s + 4) i) as [Hfar|Hnear].
    + apply IH; [lia|done|by left|].
      destruct (Z.ltb_spec s (i - 1)); [|done].
      apply Forall_app. split; [done|]. apply Forall_singleton.
      exists (Z.to_nat s), (Z.to_nat i), first, line.
      rewrite !Z2Nat.id by lia. repeat split; try done. lia.
    + apply IH; [lia|done| |done]. right. split; [lia|eauto].
Qed.

Lemma emitted_chunks_are_runs L : Forall (emittedRun L) (importantChunksOf L).
Proof. unfold importantChunksOf. apply scan_runs; [done|done|by left|done]. Qed.

(** ** Important lines *)

Lemma prefix_iff (p s : string) :
  String.prefix p s = true ↔ ∃ t, s = p +:+ t.
Proof.
  revert s. induction p as [|a p IH]; intros s.
  - split; [intros _; by exists s|intros _; by destruct s].
  - destruct s as [|b s]; cbn [String.prefix].
    + split; [done|]. by intros [t Ht].
    + destruct (ascii_dec a b) as [->|Hne].
      * rewrite IH. split; intros [t Ht]; exists t.
        -- by rewrite append_cons, <- Ht.
        -- rewrite append_cons in Ht. by injection Ht.
      * split; [done|]. intros [t Ht]. rewrite append_cons in Ht.
        injection Ht as ? ?. congruence.
Qed.

Lemma signed_iff (kws : list string) (line : string) :
  regexp.signed kws line = true
  ↔ ∃ sign kw rest,
      line = String sign (kw +:+ rest)
      ∧ (sign = "+"%char ∨ sign = "-"%char) ∧ kw ∈ kws.
Proof.
  destruct line as [|c rest]; cbn [regexp.signed].
  - split; [done|]. by intros (? & ? & ? & ? & _).
  - rewrite andb_true_iff, orb_true_iff, !Ascii.eqb_eq, existsb_exists. split.
    + intros [Hsign (kw & Hin & Hpre)]. apply prefix_iff in Hpre as [t ->].
      exists c, kw, t. by rewrite list_elem_of_In.
    + intros (sign & kw & t & [= -> ->] & Hsign & Hin). split; [done|].
      exists kw. rewrite <- list_elem_of_In. split; [done|].
      apply prefix_iff. by exists t.
Qed.

Lemma isImportant_iff (line : string) :
  isImportant line = true
  ↔ ∃ sign kw rest,
      line = String sign (kw +:+ rest)
      ∧ (sign = "+"%char ∨ sign = "-"%char) ∧ kw ∈ keywords.
Proof.
  unfold isImportant, regexp.MatchFunc, regexp.MatchImport, keywords.
  rewrite orb_true_iff, !signed_iff. split.
  - intros [(sign & kw & t & Hl & Hs & Hk)|(sign & kw & t & Hl & Hs & Hk)];
      exists sign, kw, t; (split; [done|]); (split; [done|]);
      apply elem_of_app; [by left|by right].
  - intros (sign & kw & t & Hl & Hs & [Hk|Hk]%elem_of_app);
      [left|right]; by exists sign, kw, t.
Qed.

(** ** What the scan emits *)

Lemma scan_emits (pre more post : list string) (first closer : string)
    (chunks : list string) :
  let diffLines := pre ++ first :: more ++ closer :: post in
  scanChunks diffLines 0 pre (-1) [] = (-1, chunks) →
  isImportant first = true →
  (4 ≤ length more)%nat →
  (∀ (j : nat) line, (4 ≤ j)%nat → more !! j = Some line →
     isImportant line = true) →
  isImportant closer = false →
  scanChunks diffLines 0 (pre ++ first :: more ++ [closer]) (-1) []
  = (-1, chunks ++ [strings.Join (first :: more) NL]).
Proof.
  intros diffLines Hpre Hfirst Hlen Hmore Hcloser.
  rewrite scan_app, Hpre. cbn [fst snd]. rewrite Z.add_0_l.
  rewrite scan_chunk by (done || apply len_nonneg).
  pose proof (lineSlice_middle pre (first :: more) (closer :: post)) as Hslice.
  cbn [app] in Hslice. subst diffLines. by rewrite Hslice.
Qed.

Lemma importantChunksOf_split (L r1 r2 : list string) :
  L = r1 ++ r2 →
  importantChunksOf L
  = (scanChunks L (len r1) r2
       (scanChunks L 0 r1 (-1) []).1 (scanChunks L 0 r1 (-1) []).2).2.
Proof.
  intros HL. unfold importantChunksOf.
  transitivity (scanChunks L 0 (r1 ++ r2) (-1) []).2; [by rewrite <- HL|].
  by rewrite scan_app, Z.add_0_l.
Qed.

Lemma chunks_after_emission (pre more post : list string) (first closer : string)
    (chunks : list string) :
  let diffLines := pre ++ first :: more ++ closer :: post in
  scanChunks diffLines 0 pre (-1) [] = (-1, chunks) →
  isImportant first = true →
  (4 ≤ length more)%nat →
  (∀ (j : nat) line, (4 ≤ j)%nat → more !! j = Some line →
     isImportant line = true) →
  isImportant closer = false →
  ∃ later,
    importantChunksOf diffLines = chunks ++ strings.Join (first :: more) NL :: later.
Proof.
  intros diffLines Hpre Hfirst Hlen Hmore Hcloser.
  pose proof (scan_emits pre more post first closer chunks
                Hpre Hfirst Hlen Hmore Hcloser) as Hemit.
  subst diffLines. cbv zeta in Hemit.
  set (L := pre ++ first :: more ++ closer :: post) in *.
  assert (L = (pre ++ first :: more ++ [closer]) ++ post) as Hsplit.
  { subst L. rewrite <- !app_assoc. cbn [app]. by rewrite <- !app_assoc. }
  rewrite (importantChunksOf_split _ _ _ Hsplit), Hemit.
  cbn [fst snd].
  destruct (scan_extends L (len (pre ++ first :: more ++ [closer]))
              post (-1) (chunks ++ [strings.Join (first :: more) NL]))
    as [later ->].
  exists later. by rewrite <- app_assoc.
Qed.

(** C3, as the program has it: a chunk is opened by an important line while
    no chunk is open, and is closed by the first line that is not important
    and lies more than four lines past the start of the chunk (the lines
    [more] up to there may be anything).  The closed chunk, all lines from
    its start up to the closing line, is always kept, whether it holds one
    important line or several.  Every chunk kept is such a run of five
    lines or more. *)
Theorem chunk_closed_by_distance_from_start
    (pre more post : list string) (first closer : string) (chunks : list string) :
  let diffLines := pre ++ first :: more ++ closer :: post in
  scanChunks diffLines 0 pre (-1) [] = (-1, chunks) →
  isImportant first = true →
  (4 ≤ length more)%nat →
  (∀ (j : nat) line, (4 ≤ j)%nat → more !! j = Some line →
     isImportant line = true) →
  isImportant closer = false →
  scanChunks diffLines 0 (pre ++ first :: more ++ [closer]) (-1) []
  = (-1, chunks ++ [strings.Join (first :: more) NL])
  ∧ (∃ later,
       importantChunksOf diffLines
       = chunks ++ strings.Join (first :: more) NL :: later)
  ∧ Forall (emittedRun diffLines) (importantChunksOf diffLines).
Proof.
  intros diffLines Hpre Hfirst Hlen Hmore Hcloser. split; [|split].
  - by apply scan_emits.
  - by apply chunks_after_emission.
  - apply emitted_chunks_are_runs.
Qed.

Lemma chunk_closed_by_distance_from_start_witness :
  (scanChunks isolatedLines 0 (take 6 isolatedLines) (-1) [] = (-1, [])
   ∧ isImportant "+func f() {}" = true
   ∧ isImportant " var e = 5" = false)
  ∧ scanChunks isolatedLines 0 isolatedLines (-1) []
    = (-1, [lines ["+func f() {}"; " var a = 1"; " var b = 2"; " var c = 3";
                   " var d = 4"]]).
Proof.
  split; [by vm_compute|].
  refine (proj1 (chunk_closed_by_distance_from_start
                   (take 6 isolatedLines)
                   [" var a = 1"; " var b = 2"; " var c = 3"; " var d = 4"] []
                   "+func f() {}" " var e = 5" [] _ _ _ _ _)).
  - by vm_compute.
  - by vm_compute.
  - cbn [length]. lia.
  - intros j line Hj Hline. apply lookup_lt_Some in Hline. cbn [length] in Hline. lia.
  - by vm_compute.
Defined.

(** C3, as stated, fails.  A diff with one important line only (index 6,
    followed by plain lines) gets a chunk: that line and the four after it.
    And the important lines at indices 11 and 13 of [gapLines], one plain
    line apart, end up in two chunks: the first chunk, opened at index 6, is
    closed by the plain line at index 12. *)
Lemma isolated_important_line_is_emitted :
  length (List.filter isImportant isolatedLines) = 1%nat
  ∧ importantChunksOf isolatedLines
    = [lines ["+func f() {}"; " var a = 1"; " var b = 2"; " var c = 3";
              " var d = 4"]]
  ∧ contains (fileSection 0 isolatedChange) "Important changes:" = true
  ∧ importantChunksOf gapLines
    = [lines ["+func f() {}"; " var a = 1"; " var b = 2"; " var c = 3";
              " var d = 4"; "+func g() {}"];
       lines ["+func h() {}"; " var p = 6"; " var q = 7"; " var r = 8";
              " var s = 9"]].
Proof. repeat split; by vm_compute. Qed.

(** C4, as the program has it: the scan runs over every line of the diff
    from the first one, so an important line among the first five opens a
    chunk like any other; a line is important exactly when it is a [+] or a
    [-] followed at once by one of the keywords. *)
Theorem scan_covers_every_line
    (pre more post : list string) (first closer : string) :
  let diffLines := pre ++ first :: more ++ closer :: post in
  (length pre < 5)%nat →
  Forall (fun line => isImportant line = false) pre →
  isImportant first = true →
  (4 ≤ length more)%nat →
  (∀ (j : nat) line, (4 ≤ j)%nat → more !! j = Some line →
     isImportant line = true) →
  isImportant closer = false →
  (∃ later,
     importantChunksOf diffLines = strings.Join (first :: more) NL :: later)
  ∧ (∀ line,
       isImportant line = true
       ↔ ∃ sign kw rest,
           line = String sign (kw +:+ rest)
           ∧ (sign = "+"%char ∨ sign = "-"%char) ∧ kw ∈ keywords).
Proof.
  intros diffLines _ Hpre Hfirst Hlen Hmore Hcloser. split.
  - apply (chunks_after_emission pre more post first closer []); try done.
    by apply scan_closed_keep.
  - apply isImportant_iff.
Qed.

Lemma scan_covers_every_line_witness :
  ((length ["diff --git a/f.go b/f.go"] < 5)%nat
   ∧ isImportant "diff --git a/f.go b/f.go" = false
   ∧ isImportant "+func a() {}" = true
   ∧ isImportant " end" = false)
  ∧ ∃ later,
      importantChunksOf (strings.Split earlyDiff NL_byte)
      = lines ["+func a() {}"; "+x"; "+y"; "+z"; "+w"] :: later.
Proof.
  split; [split; [cbn [length]; lia|by vm_compute]|].
  refine (proj1 (scan_covers_every_line
                   ["diff --git a/f.go b/f.go"] ["+x"; "+y"; "+z"; "+w"]
                   [EmptyString] "+func a() {}" " end" _ _ _ _ _ _)).
  - cbn [length]. lia.
  - by repeat constructor.
  - by vm_compute.
  - cbn [length]. lia.
  - intros j line Hj Hline. apply lookup_lt_Some in Hline. cbn [length] in Hline. lia.
  - by vm_compute.
Defined.

(** C4, as stated, fails: the parser gives a record whose diff has an
    important line at index 1, and that line opens a chunk, so the section
    repeats lines 1 to 4 after the marker. *)
Lemma early_line_starts_a_chunk :
  GetStagedDiffFiles earlyDiff earlyListing = Returns [earlyChange]
  ∧ strings.Split (Diff earlyChange) NL_byte !! 1%nat = Some "+func a() {}"
  ∧ importantChunksOf (strings.Split (Diff earlyChange) NL_byte)
    = [lines ["+func a() {}"; "+x"; "+y"; "+z"; "+w"]]
  ∧ fileSection 0 earlyChange
    = NL +:+ "### Modified: f.go" +:+ NL
      +:+ lines ["diff --git a/f.go b/f.go"; "+func a() {}"; "+x"; "+y"; "+z"]
      +:+ truncationMarker
      +:+ NL +:+ "Important changes:" +:+ NL
      +:+ lines ["+func a() {}"; "+x"; "+y"; "+z"; "+w"] +:+ chunkSeparator.
Proof. repeat split; by vm_compute. Qed.

(** C10: a chunk still open when the lines run out is never written.  When
    no chunk is open before [first], [first] is important and no line that
    is not important lies more than four lines past it, the scan ends with
    the chunk open at [first] and with the chunks it had before: the lines
    from [first] on appear in no chunk, however few chunks there are. *)
Theorem open_chunk_at_end_is_dropped
    (pre more : list string) (first : string) (chunks : list string) :
  let diffLines := pre ++ first :: more in
  scanChunks diffLines 0 pre (-1) [] = (-1, chunks) →
  isImportant first = true →
  (∀ (j : nat) line, (4 ≤ j)%nat → more !! j = Some line →
     isImportant line = true) →
  scanChunks diffLines 0 diffLines (-1) [] = (len pre, chunks)
  ∧ importantChunksOf diffLines = chunks
  ∧ (chunks = [] → importantSection (importantChunksOf diffLines) = EmptyString).
Proof.
  intros diffLines Hpre Hfirst Hmore.
  assert (scanChunks diffLines 0 diffLines (-1) [] = (len pre, chunks)) as Hscan.
  { unfold diffLines at 2. rewrite scan_app, Hpre. cbn [fst snd].
    rewrite Z.add_0_l, scan_open by done.
    apply scan_open_keep.
    - pose proof (len_nonneg pre). lia.
    - intros j line Hj.
      destruct (Nat.le_gt_cases 4 j); [left; eauto|right; lia]. }
  split; [done|]. unfold importantChunksOf. rewrite Hscan.
  split; [done|]. by intros ->.
Qed.

Lemma open_chunk_at_end_is_dropped_witness :
  (scanChunks trailingLines 0 (take 6 trailingLines) (-1) [] = (-1, [])
   ∧ isImportant "+func f() {}" = true
   ∧ isImportant "+func g() {}" = true)
  ∧ scanChunks trailingLines 0 trailingLines (-1) [] = (6, [])
  ∧ importantChunksOf trailingLines = [].
Proof.
  split; [by vm_compute|].
  refine (let H := open_chunk_at_end_is_dropped (take 6 trailingLines)
                     ["+func g() {}"] "+func f() {}" [] _ _ _ in
          conj (proj1 H) (proj1 (proj2 H))).
  - by vm_compute.
  - by vm_compute.
  - intros j line Hj Hline. apply lookup_lt_Some in Hline. cbn [length] in Hline. lia.
Defined.

(** ** The order of the directory groups *)

Lemma twoDir_parsed :
  GetStagedDiffFiles twoDirDiff twoDirListing = Returns twoDirChanges.
Proof. by vm_compute. Qed.

Lemma twoDir_orders :
  rangeOrder (dirGroups twoDirChanges) apiFirst
  ∧ rangeOrder (dirGroups twoDirChanges) webFirst.
Proof.
  unfold rangeOrder.
  assert (map_to_list (dirGroups twoDirChanges) ≡ₚ apiFirst) as Hlist.
  { vm_compute. first [reflexivity | apply perm_swap]. }
  split; [by rewrite Hlist|].
  rewrite Hlist. apply perm_swap.
Qed.

(** C2 fails on the program: for one status listing, one raw diff and one
    budget, [PrepareSmartDiff] has two results that differ, one for each
    order in which the range loop may visit the two directory groups. *)
Theorem directory_groups_order_not_fixed :
  PrepareSmartDiff twoDirDiff twoDirListing 4000
    (Returns (smartDiff apiFirst twoDirChanges 4000))
  ∧ PrepareSmartDiff twoDirDiff twoDirListing 4000
      (Returns (smartDiff webFirst twoDirChanges 4000))
  ∧ smartDiff apiFirst twoDirChanges 4000 ≠ smartDiff webFirst twoDirChanges 4000
  ∧ contains (smartDiff apiFirst twoDirChanges 4000)
      ("- api: 1 files" +:+ NL +:+ "- web: 1 files") = true
  ∧ contains (smartDiff webFirst twoDirChanges 4000)
      ("- web: 1 files" +:+ NL +:+ "- api: 1 files") = true.
Proof.
  destruct twoDir_orders as [Hapi Hweb].
  unfold PrepareSmartDiff. rewrite twoDir_parsed.
  split; [eexists; split; [done|by exists apiFirst]|].
  split; [eexists; split; [done|by exists webFirst]|].
  split; [|split; by vm_compute].
  apply String.eqb_neq. by vm_compute.
Qed.

(** ** The parser *)

Lemma SplitN2_no_tab (line : string) :
  hasTab line = false → strings.SplitN2 line TAB_byte = [line].
Proof.
  induction line as [|c rest IH]; [done|].
  cbn [hasTab strings.SplitN2]. intros [Hc Hrest]%orb_false_iff.
  by rewrite Hc, IH.
Qed.

Lemma SplitN2_tab (line : string) :
  hasTab line = true →
  ∃ code path,
    strings.SplitN2 line TAB_byte = [code; path]
    ∧ (startsWithTab line = false → code ≠ EmptyString).
Proof.
  induction line as [|c rest IH]; [done|].
  cbn [hasTab strings.SplitN2 startsWithTab].
  destruct (Ascii.eqb c TAB_byte) eqn:Hc.
  - intros _. by exists EmptyString, rest.
  - cbn [orb]. intros (code & path & -> & _)%IH.
    by exists (String c code), path.
Qed.

(** What the inner loop leaves of the record it is given. *)
Lemma findFileDiff_spec diffOutput matches fileChange :
  let fc := findFileDiff diffOutput matches fileChange in
  Path fc = Path fileChange
  ∧ ChangeType fc = ChangeType fileChange
  ∧ (Diff fc = Diff fileChange
     ∨ ∃ lo hi, Diff fc = byteSlice diffOutput lo hi).
Proof.
  induction matches as [|mt later IH]; cbn [findFileDiff]; [by auto|].
  destruct (_ || _); [|done].
  cbn [Path ChangeType Diff]. repeat split. right. eauto.
Qed.

Lemma statusLine_no_tab diffOutput line :
  hasTab line = false → statusLine diffOutput line = Returns None.
Proof.
  intros Hno. unfold statusLine.
  destruct (String.eqb line EmptyString); [done|].
  by rewrite SplitN2_no_tab.
Qed.

Lemma statusLine_tab diffOutput line :
  hasTab line = true → startsWithTab line = false →
  ∃ fc, statusLine diffOutput line = Returns (Some fc)
        ∧ (Diff fc = EmptyString ∨ ∃ lo hi, Diff fc = byteSlice diffOutput lo hi).
Proof.
  intros Htab Hcode. unfold statusLine.
  destruct (String.eqb_spec line EmptyString) as [->|_]; [done|].
  destruct (SplitN2_tab line Htab) as (code & path & -> & Hne).
  destruct code as [|c0 code]; [by destruct Hne|]. cbn [String.get].
  eexists. split; [done|].
  apply findFileDiff_spec.
Qed.

(** Indexing the empty status code of a line that starts with a tab is out
    of range. *)
Lemma statusLine_empty_code diffOutput path :
  statusLine diffOutput (String TAB_byte path) = Panics.
Proof. done. Qed.





(** The case the statement above leaves out: a line with an empty status
    code makes the parser panic. *)
Lemma empty_status_code_panics :
  fileListLines emptyCodeListing
  = ["M" +:+ TAB +:+ "foo/a.go"; TAB +:+ "b.go"]
  ∧ GetStagedDiffFiles sampleDiff emptyCodeListing = Panics.
Proof. split; by vm_compute. Qed.

(** ** The budget of a file: binary64 arithmetic *)

Lemma digits2_pos_size (m : positive) : digits2_pos m = Pos.size m.
Proof. induction m; cbn; congruence. Qed.

Lemma digits2_bounds (m : positive) :
  2 ^ (Z.pos (digits2_pos m) - 1) ≤ Z.pos m < 2 ^ Z.pos (digits2_pos m).
Proof.
  induction m as [m IH|m IH|]; cbn [digits2_pos].
  - rewrite Pos2Z.inj_succ, (Pos2Z.inj_xI m).
    replace (Z.succ (Z.pos (digits2_pos m)) - 1) with (Z.succ (Z.pos (digits2_pos m) - 1)) by lia.
    rewrite !Z.pow_succ_r by lia. lia.
  - rewrite Pos2Z.inj_succ, (Pos2Z.inj_xO m).
    replace (Z.succ (Z.pos (digits2_pos m)) - 1) with (Z.succ (Z.pos (digits2_pos m) - 1)) by lia.
    rewrite !Z.pow_succ_r by lia. lia.
  - by cbn.
Qed.

Lemma digits2_unique (m : positive) (k : Z) :
  2 ^ (k - 1) ≤ Z.pos m < 2 ^ k → Z.pos (digits2_pos m) = k.
Proof.
  intros [Hlo Hhi]. pose proof (digits2_bounds m) as [Hlo' Hhi'].
  assert (0 < k).
  { destruct (Z.le_gt_cases k 0) as [Hk|]; [|done].
    assert (2 ^ k ≤ 2 ^ 0) by (apply Z.pow_le_mono_r; lia). cbn in *. lia. }
  assert (k - 1 < Z.pos (digits2_pos m)).
  { apply (Z.pow_lt_mono_r_iff 2); lia. }
  assert (Z.pos (digits2_pos m) - 1 < k).
  { apply (Z.pow_lt_mono_r_iff 2); lia. }
  lia.
Qed.

Lemma iter_xO (m d : positive) : Z.pos (Pos.iter xO m d) = Z.pos m * 2 ^ Z.pos d.
Proof.
  induction d as [|d IH] using Pos.peano_ind.
  - cbn. lia.
  - rewrite Pos.iter_succ, (Pos2Z.inj_xO (Pos.iter xO m d)), IH, Pos2Z.inj_succ, Z.pow_succ_r by lia. lia.
Qed.

Lemma fexp_normal (x : Z) : -1021 ≤ x → fexp prec emax x = x - 53.
Proof. intros Hx. unfold fexp, emin, prec, emax. lia. Qed.

Lemma shr_fexp_noshift (m e : Z) (l : location) :
  fexp prec emax (Zdigits2 m + e) - e ≤ 0 →
  shr_fexp prec emax m e l = (shr_record_of_loc m l, e).
Proof.
  intros Hn. unfold shr_fexp, shr.
  by destruct (fexp prec emax (Zdigits2 m + e) - e); [|lia|].
Qed.

Lemma shr_fexp_shift (m e : Z) (l : location) (n : positive) :
  fexp prec emax (Zdigits2 m + e) - e = Z.pos n →
  shr_fexp prec emax m e l = (SpecFloat.iter_pos shr_1 n (shr_record_of_loc m l), e + Z.pos n).
Proof. intros Hn. unfold shr_fexp, shr. by rewrite Hn. Qed.

(** A mantissa of 53 bits needs no rounding. *)
Lemma binary_round_aux_exact (s : bool) (m : positive) (e : Z) :
  Z.pos (digits2_pos m) = 53 → -1074 ≤ e ≤ 971 →
  binary_round_aux prec emax s (Z.pos m) e loc_Exact = S754_finite s m e.
Proof.
  intros Hd He. unfold binary_round_aux.
  assert (fexp prec emax (Zdigits2 (Z.pos m) + e) - e ≤ 0) as Hn.
  { cbn [Zdigits2]. rewrite Hd, fexp_normal; lia. }
  rewrite shr_fexp_noshift by done. cbn [shr_record_of_loc shr_m loc_of_shr_record round_nearest_even].
  rewrite shr_fexp_noshift by done. cbn [shr_record_of_loc shr_m].
  unfold emax, prec. by destruct (Z.leb_spec e (1024 - 53)); [|lia].
Qed.

(** Converting an integer below [2^52]: the mantissa is the integer shifted
    to 53 bits. *)
Lemma float64_of_int_small (n : positive) :
  Z.pos n < 2 ^ 52 →
  let d := Z.pos (digits2_pos n) in
  ∃ m, float64_of_int (Z.pos n) = S754_finite false m (d - 53)
       ∧ Z.pos m = Z.pos n * 2 ^ (53 - d)
       ∧ Z.pos (digits2_pos m) = 53.
Proof.
  intros Hn d. pose proof (digits2_bounds n) as [Hlo Hhi]. fold d in Hlo, Hhi.
  assert (0 < d) as Hd0 by (unfold d; lia).
  assert (d ≤ 52) as Hd.
  { destruct (Z.le_gt_cases d 52); [done|].
    assert (2 ^ 52 ≤ 2 ^ (d - 1)) by (apply Z.pow_le_mono_r; lia). lia. }
  unfold float64_of_int, binary_normalize, binary_round.
  rewrite Z.add_0_r. fold d. rewrite fexp_normal by lia.
  unfold shl_align. rewrite Z.sub_0_r.
  destruct (d - 53) as [|k|k] eqn:Hk; [lia|lia|].
  exists (Pos.iter xO n k).
  assert (Z.pos (Pos.iter xO n k) = Z.pos n * 2 ^ (53 - d)) as Hm.
  { rewrite iter_xO. f_equal. f_equal. lia. }
  assert (Z.pos (digits2_pos (Pos.iter xO n k)) = 53) as Hdm.
  { apply digits2_unique. rewrite Hm.
    replace 53 with ((53 - d) + d) at 4 by lia.
    replace (53 - 1) with ((53 - d) + (d - 1)) by lia.
    rewrite !Z.pow_add_r by lia.
    assert (0 < 2 ^ (53 - d)) by (apply Z.pow_pos_nonneg; lia).
    nia. }
  split; [|done].
  apply binary_round_aux_exact; [done|lia].
Qed.

Lemma shifted_start (m : Z) :
  0 ≤ m → shifted m 0 (shr_record_of_loc m loc_Exact).
Proof.
  intros Hm. split; [done|]. exists 0, 0. cbn. repeat split; lia.
Qed.

Lemma shr_1_shifted (m k : Z) (mrs : shr_record) :
  0 ≤ k → shifted m k mrs → shifted m (k + 1) (shr_1 mrs).
Proof.
  intros Hk (Hpos & t & u & Hm & Ht & Hr & Hu & Hs).
  assert (2 ^ (k + 1) = 2 * 2 ^ k) as Hpow by (rewrite Z.pow_add_r; lia).
  rewrite Hm. unfold shifted. rewrite Hpow.
  destruct mrs as [mm r s]. cbn [shr_m shr_r shr_s] in *.
  assert (orb r s = false ↔ 2 * t = 0) as Hsticky.
  { destruct r; cbn [orb]; [split; [done|lia]|]. rewrite Hs. lia. }
  set (p := 2 ^ k) in *.
  destruct mm as [|[mm|mm|]|mm]; cbn [shr_1 shr_m shr_r shr_s]; [| | | |lia].
  - split; [done|]. exists t, (2 * t). repeat split; try lia; apply Hsticky.
  - split; [lia|]. exists (t + p), (2 * t).
    rewrite (Pos2Z.inj_xI mm). repeat split; try lia; apply Hsticky.
  - split; [lia|]. exists t, (2 * t).
    rewrite (Pos2Z.inj_xO mm). repeat split; try lia; apply Hsticky.
  - split; [done|]. exists (t + p), (2 * t). repeat split; try lia; apply Hsticky.
Qed.

Lemma iter_shr_1_shifted (m : Z) (n : positive) :
  ∀ k mrs, 0 ≤ k → shifted m k mrs →
  shifted m (k + Z.pos n) (SpecFloat.iter_pos shr_1 n mrs).
Proof.
  induction n as [n IH|n IH|]; intros k mrs Hk Hmrs; cbn [SpecFloat.iter_pos].
  - replace (k + Z.pos n~1) with (k + 1 + Z.pos n + Z.pos n) by lia.
    apply IH; [lia|]. apply IH; [lia|]. by apply shr_1_shifted.
  - replace (k + Z.pos n~0) with (k + Z.pos n + Z.pos n) by lia.
    apply IH; [lia|]. by apply IH.
  - by apply shr_1_shifted.
Qed.

(** Rounding to nearest: the result is the quotient or the next integer, and
    at most half a unit above the exact value. *)
Lemma round_nearest_even_bounds (m k : Z) (mrs : shr_record) :
  shifted m k mrs →
  let R := round_nearest_even (shr_m mrs) (loc_of_shr_record mrs) in
  shr_m mrs ≤ R ≤ shr_m mrs + 1
  ∧ 2 * (R * 2 ^ k) ≤ 2 * m + 2 ^ k
  ∧ shr_m mrs * 2 ^ k ≤ m < (shr_m mrs + 1) * 2 ^ k.
Proof.
  intros (Hpos & t & u & Hm & Ht & Hr & Hu & Hs) R. subst R.
  destruct mrs as [mm r s]. cbn [shr_m shr_r shr_s] in *.
  set (p := 2 ^ k) in *.
  destruct r, s; cbn [loc_of_shr_record round_nearest_even];
    try destruct (Z.even mm); nia.
Qed.

(** Rounding a mantissa of more than 53 bits: the result is the mantissa
    shifted to 53 bits and rounded, [R], at the exponent [e0] of the shift,
    or the same value written with one bit less. *)
Lemma binary_round_aux_long (P : positive) (e : Z) :
  let D := Z.pos (digits2_pos P) in
  let e0 := e + (D - 53) in
  53 < D → -1021 ≤ D + e → D + e ≤ 1023 →
  ∃ (R m' : positive) (e' : Z),
    binary_round_aux prec emax false (Z.pos P) e loc_Exact = S754_finite false m' e'
    ∧ ((e' = e0 ∧ m' = R) ∨ (e' = e0 + 1 ∧ Z.pos R = 2 * Z.pos m'))
    ∧ Z.pos R * 2 ^ (D - 53) ≤ Z.pos P + 2 ^ (D - 53)
    ∧ Z.pos P < (Z.pos R + 1) * 2 ^ (D - 53)
    ∧ 2 * (Z.pos R * 2 ^ (D - 53)) ≤ 2 * Z.pos P + 2 ^ (D - 53).
Proof.
  intros D e0 HD Hlo Hhi.
  pose proof (digits2_bounds P) as [HPlo HPhi]. fold D in HPlo, HPhi.
  set (n := Z.to_pos (D - 53)).
  assert (Z.pos n = D - 53) as Hn by (unfold n; rewrite Z2Pos.id; lia).
  unfold binary_round_aux.
  rewrite (shr_fexp_shift _ _ _ n)
    by (cbn [Zdigits2]; fold D; rewrite fexp_normal; lia).
  set (mrs := SpecFloat.iter_pos shr_1 n (shr_record_of_loc (Z.pos P) loc_Exact)).
  assert (shifted (Z.pos P) (Z.pos n) mrs) as Hmrs.
  { replace (Z.pos n) with (0 + Z.pos n) by lia.
    apply iter_shr_1_shifted; [done|]. by apply shifted_start. }
  pose proof (round_nearest_even_bounds _ _ _ Hmrs) as (HR & Hhalf & Hq).
  cbv zeta in HR, Hhalf. rewrite Hn in Hhalf, Hq.
  set (R := round_nearest_even (shr_m mrs) (loc_of_shr_record mrs)) in *.
  assert (2 ^ (D - 1) = 2 ^ 52 * 2 ^ (D - 53)) as Hp1
    by (rewrite <- Z.pow_add_r by lia; f_equal; lia).
  assert (2 ^ D = 2 ^ 53 * 2 ^ (D - 53)) as Hp2
    by (rewrite <- Z.pow_add_r by lia; f_equal; lia).
  assert (0 < 2 ^ (D - 53)) as Hppos by (apply Z.pow_pos_nonneg; lia).
  rewrite Hp1 in HPlo. rewrite Hp2 in HPhi.
  set (p := 2 ^ (D - 53)) in *. clearbody p.
  assert (2 ^ 52 ≤ shr_m mrs < 2 ^ 53) as Hqr by nia.
  assert (2 ^ 52 ≤ R ≤ 2 ^ 53) as HRr by lia.
  destruct R as [|r|r] eqn:HRe; [lia| |lia].
  destruct (Z.eq_dec (Z.pos r) (2 ^ 53)) as [Htop|Hntop].
  - (* the rounding carried into a 54th bit *)
    assert (r = 9007199254740992%positive) as -> by lia.
    rewrite (shr_fexp_shift _ _ _ 1)
      by (cbn [Zdigits2 digits2_pos Pos.succ]; rewrite fexp_normal; lia).
    cbn [SpecFloat.iter_pos shr_record_of_loc shr_1 shr_m].
    unfold emax, prec.
    destruct (Z.leb_spec (e + Z.pos n + 1) (1024 - 53)); [|lia].
    exists 9007199254740992%positive, 4503599627370496%positive, (e + Z.pos n + 1).
    split; [done|]. split; [right; unfold e0; lia|]. lia.
  - assert (Z.pos (digits2_pos r) = 53) as Hdr by (apply digits2_unique; lia).
    rewrite shr_fexp_noshift
      by (cbn [Zdigits2]; rewrite Hdr, fexp_normal; lia).
    cbn [shr_record_of_loc shr_m]. unfold emax, prec.
    destruct (Z.leb_spec (e + Z.pos n) (1024 - 53)); [|lia].
    exists r, r, (e + Z.pos n).
    split; [done|]. split; [left; unfold e0; lia|]. nia.
Qed.

(** [0.8] is [(2^55 + 2) / 5 * 2^-53]. *)
Lemma const_0_8_mantissa : 5 * 7205759403792794 = 2 ^ 55 + 2.
Proof. reflexivity. Qed.

(** Below [3 * 2^49] the product with [0.8], truncated, is four fifths of
    the integer, rounded down. *)
Lemma fileDiffBudget_exact (maxTokens : Z) :
  0 < maxTokens < 3 * 2 ^ 49 → fileDiffBudget maxTokens = 4 * maxTokens / 5.
Proof.
  intros [Hpos Hmax]. destruct maxTokens as [|t|t]; [lia| |lia].
  destruct (float64_of_int_small t) as (m & Hconv & Hm & Hdm); [lia|].
  cbv zeta in Hconv, Hm. set (d := Z.pos (digits2_pos t)) in *.
  pose proof (digits2_bounds t) as [Htlo Hthi]. fold d in Htlo, Hthi.
  assert (0 < d) as Hd0 by (unfold d; lia).
  assert (d ≤ 51) as Hd.
  { destruct (Z.le_gt_cases d 51); [done|].
    assert (2 ^ 51 ≤ 2 ^ (d - 1)) by (apply Z.pow_le_mono_r; lia). lia. }
  unfold fileDiffBudget, float64_mul. rewrite Hconv. unfold const_0_8.
  cbn [SFmul xorb].
  set (T := Z.pos t) in *.
  set (P := (m * 7205759403792794)%positive).
  assert (Z.pos P = Z.pos m * 7205759403792794) as HP by (unfold P; lia).
  pose proof (digits2_bounds m) as [Hmlo Hmhi]. rewrite Hdm in Hmlo, Hmhi.
  pose proof (digits2_bounds P) as [HPlo HPhi].
  set (D := Z.pos (digits2_pos P)) in *.
  assert (104 < D) as HD1.
  { apply (Z.pow_lt_mono_r_iff 2); [lia|unfold D; lia|]. 
    eapply Z.le_lt_trans; [|apply HPhi]. rewrite HP. 
    change (2 ^ 104) with (2 ^ 52 * 2 ^ 52). nia. }
  assert (D - 1 < 106) as HD2.
  { apply (Z.pow_lt_mono_r_iff 2); [lia|lia|].
    eapply Z.le_lt_trans; [apply HPlo|]. rewrite HP.
    change (2 ^ 106) with (2 ^ 53 * 2 ^ 53). nia. }
  destruct (binary_round_aux_long P (d - 53 + -53)) as (R & m' & e' & -> & He' & Ha & Hb & Hc);
    [fold D; lia..|].
  fold D in He', Ha, Hb, Hc.
  cbn [int_of_float64 cond_Zopp].
  set (j := 159 - d - D).
  assert (2 ≤ j ≤ 54) as Hj by (unfold j; lia).
  set (s := 2 ^ (53 - d)) in *.
  set (pn := 2 ^ (D - 53)) in *.
  set (pj := 2 ^ j).
  assert (pj * pn = 2 ^ 53 * s) as Hjn.
  { unfold pj, pn, s. rewrite <- !Z.pow_add_r by lia. f_equal. unfold j. lia. }
  assert (4 ≤ s) as Hs.
  { unfold s. change 4 with (2 ^ 2). apply Z.pow_le_mono_r; lia. }
  assert (0 < pn ≤ 2 ^ 53) as Hpn.
  { unfold pn. split; [apply Z.pow_pos_nonneg; lia|apply Z.pow_le_mono_r; lia]. }
  assert (0 < pj) as Hpj by (unfold pj; apply Z.pow_pos_nonneg; lia).
  set (Q := 4 * T / 5).
  assert (5 * Q ≤ 4 * T < 5 * Q + 5) as HQ.
  { unfold Q. pose proof (Z.div_mod (4 * T) 5 ltac:(lia)).
    pose proof (Z.mod_pos_bound (4 * T) 5 ltac:(lia)). lia. }
  (* the rounded mantissa lies in the window of [Q] *)
  assert (Q * pj ≤ Z.pos R < (Q + 1) * pj) as HR.
  { clearbody s pn pj Q. 
    assert (5 * (Q * s) ≤ 4 * (T * s)) as H1 by nia.
    assert (4 * (T * s) + s ≤ 5 * (Q * s) + 5 * s) as H2 by nia.
    assert (T * s < 3 * 2 ^ 49 * s) as H3 by nia.
    assert ((Q * pj) * pn = 2 ^ 53 * (Q * s)) as H4 by nia.
    assert (Z.pos P = T * s * 7205759403792794) as H5 by (rewrite HP, Hm; lia).
    set (X := T * s) in *. set (QS := Q * s) in *.
    split.
    - assert ((Q * pj) * pn < (Z.pos R + 1) * pn) as H6 by lia.
      nia.
    - assert (2 * (Z.pos R * pn) < 2 * ((Q + 1) * pj * pn)) as H6.
      { replace ((Q + 1) * pj * pn) with (Q * pj * pn + pj * pn) by ring.
        rewrite H4, Hjn. lia. }
      nia. }
  destruct (Z.leb_spec 0 e') as [He0|He0]; [lia|].
  assert (0 < 2 ^ (- e')) as Hpe by (apply Z.pow_pos_nonneg; lia).
  assert (Q * 2 ^ (- e') ≤ Z.pos m' < (Q + 1) * 2 ^ (- e')) as Hwin.
  { destruct He' as [[-> ->]|[-> HRm]].
    - replace (- (d - 53 + -53 + (D - 53))) with j by (unfold j; lia). apply HR.
    - assert (pj = 2 * 2 ^ (- (d - 53 + -53 + (D - 53) + 1))) as Hpj2.
      { unfold pj. rewrite <- Z.pow_succ_r by lia. f_equal. unfold j. lia. }
      rewrite Hpj2, HRm in HR. nia. }
  symmetry. apply (Z.div_unique _ _ _ (Z.pos m' - Q * 2 ^ (- e'))); lia.
Qed.

Lemma tokensPerFile_exact (totalBudget fileCount : Z) :
  0 < totalBudget < 3 * 2 ^ 49 → 0 < fileCount →
  tokensPerFile totalBudget fileCount = 4 * totalBudget / (5 * fileCount).
Proof.
  intros Hbudget Hcount. unfold tokensPerFile.
  rewrite fileDiffBudget_exact by done.
  rewrite Z.quot_div_nonneg by (try apply Z.div_pos; lia).
  by rewrite Z.div_div by lia.
Qed.

(** C9, as the program has it: for a total budget below [3 * 2^49]
    (1688849860263936) and at least one file, the budget of a file is
    [floor(totalBudget * 0.8 / fileCount)]; it is at most the total budget,
    and the character budgets of all files together are at most
    [0.8 * totalBudget * 4], with or without a slack of [fileCount]. *)
Theorem budget_per_file (totalBudget fileCount : Z) :
  0 < totalBudget < 3 * 2 ^ 49 →
  0 < fileCount →
  tokensPerFile totalBudget fileCount = 4 * totalBudget / (5 * fileCount)
  ∧ 0 ≤ tokensPerFile totalBudget fileCount ≤ totalBudget
  ∧ 5 * (tokensPerFile totalBudget fileCount * 4 * fileCount) ≤ 16 * totalBudget
  ∧ 5 * (tokensPerFile totalBudget fileCount * 4 * fileCount)
    ≤ 16 * totalBudget + 5 * fileCount.
Proof.
  intros Hbudget Hcount. rewrite tokensPerFile_exact by done.
  set (q := 4 * totalBudget / (5 * fileCount)).
  assert (0 ≤ q) as Hq0 by (apply Z.div_pos; lia).
  assert ((5 * fileCount) * q ≤ 4 * totalBudget) as Hq
    by (apply Z.mul_div_le; lia).
  split; [done|]. split; [nia|]. split; lia.
Qed.

Lemma budget_per_file_witness :
  (0 < 40 < 3 * 2 ^ 49 ∧ 0 < 10)
  ∧ tokensPerFile 40 10 = 3
  ∧ 5 * (tokensPerFile 40 10 * 4 * 10) ≤ 16 * 40 + 5 * 10.
Proof.
  assert (0 < 40 < 3 * 2 ^ 49) as Hbudget by lia.
  assert (0 < 10) as Hcount by lia.
  pose proof (budget_per_file 40 10 Hbudget Hcount) as (Heq & _ & _ & Hslack).
  split; [done|]. split; [|exact Hslack].
  etrans; [exact Heq|]. by vm_compute.
Defined.

(** C9, as stated, fails at the total budget [3 * 2^49] with one file: the
    binary64 product with [0.8] is rounded up to the next integer, one more
    than [floor(totalBudget * 0.8)]. *)
Lemma budget_rounds_up_at_3_2_49 :
  0 < 1688849860263936
  ∧ 4 * 1688849860263936 / (5 * 1) = 1351079888211148
  ∧ tokensPerFile 1688849860263936 1 = 1351079888211149.
Proof. repeat split; by vm_compute. Qed.

(** * Further properties of the parser *)

Lemma startsWithTab_hasTab (line : string) :
  startsWithTab line = true → hasTab line = true.
Proof.
  destruct line as [|c rest]; [done|]. cbn [startsWithTab hasTab].
  by intros ->.
Qed.

Lemma statusLine_panics_iff diffOutput line :
  statusLine diffOutput line = Panics ↔ startsWithTab line = true.
Proof.
  split.
  - intros Hp. destruct (startsWithTab line) eqn:Hcode; [done|].
    destruct (hasTab line) eqn:Htab.
    + destruct (statusLine_tab diffOutput line Htab Hcode) as (fc & Hfc & _).
      congruence.
    + rewrite statusLine_no_tab in Hp by done. congruence.
  - destruct line as [|c rest]; [done|]. cbn [startsWithTab].
    intros ->%Ascii.eqb_eq. apply statusLine_empty_code.
Qed.

Lemma parseLines_panics_iff diffOutput fileListLines fileChanges :
  parseLines diffOutput fileListLines fileChanges = Panics
  ↔ Exists (fun line => startsWithTab line = true) fileListLines.
Proof.
  revert fileChanges.
  induction fileListLines as [|line rest IH]; intros fileChanges.
  - cbn [parseLines]. split; [done|]. by intros ?%Exists_nil.
  - cbn [parseLines]. rewrite Exists_cons.
    destruct (statusLine diffOutput line) as [[fc|]|] eqn:Hline.
    + rewrite IH. split; [by right|]. intros [Hcode|]; [|done].
      apply (statusLine_panics_iff diffOutput) in Hcode. congruence.
    + rewrite IH. split; [by right|]. intros [Hcode|]; [|done].
      apply (statusLine_panics_iff diffOutput) in Hcode. congruence.
    + split; [|done]. intros _. left. by apply (statusLine_panics_iff diffOutput).
Qed.

(** X1: the parser panics exactly when the raw diff is not empty and some
    line of the trimmed listing starts with a tab, that is, has an empty
    status code ([changeType[0]] is read without a check). *)
Theorem parser_panics_iff_empty_status_code (diffOutput fileListOutput : string) :
  GetStagedDiffFiles diffOutput fileListOutput = Panics
  ↔ diffOutput ≠ EmptyString
    ∧ Exists (fun line => startsWithTab line = true) (fileListLines fileListOutput).
Proof.
  unfold GetStagedDiffFiles.
  destruct (String.eqb_spec diffOutput EmptyString) as [->|Hne].
  - split; [done|]. by intros [? _].
  - rewrite parseLines_panics_iff. split; [by split|by intros [_ ?]].
Qed.

(** Cutting a line at its first tab. *)
Lemma SplitN2_app (a b : string) :
  hasTab a = false →
  strings.SplitN2 (a +:+ TAB +:+ b) TAB_byte = [a; b].
Proof.
  induction a as [|c a IH]; intros Hno.
  - done.
  - cbn [hasTab] in Hno. apply orb_false_iff in Hno as [Hc Ha].
    rewrite append_cons. cbn [strings.SplitN2]. by rewrite Hc, IH.
Qed.

Lemma statusLine_fields diffOutput (c0 : ascii) (code rest : string) :
  hasTab (String c0 code) = false →
  statusLine diffOutput (String c0 code +:+ TAB +:+ rest)
  = Returns (Some (findFileDiff diffOutput (regexp.FindAllHeaders diffOutput)
      {| Path := if Ascii.eqb c0 "R"%char then
                   match strings.SplitN2 rest TAB_byte with
                   | [_; newPath] => newPath
                   | _ => rest
                   end
                 else rest;
         ChangeType := changeTypeStr c0;
         IsBinary := false; Diff := EmptyString |})).
Proof.
  intros Hno. unfold statusLine.
  rewrite SplitN2_app by done. by rewrite append_cons.
Qed.

(** X2: what a status line decodes to.  For a status code without tab that
    starts with the byte [c0], the line [code TAB rest] gives one record;
    its change type is read off [c0] alone (A, D, R, and Modified for M and
    for every other byte); its path is [rest], except for a rename line
    [code TAB old TAB new], whose path is [new]. *)
Theorem status_line_decodes (diffOutput : string) (c0 : ascii) (code rest : string) :
  hasTab (String c0 code) = false →
  ∃ fc,
    statusLine diffOutput (String c0 code +:+ TAB +:+ rest) = Returns (Some fc)
    ∧ ChangeType fc
      = (if Ascii.eqb c0 "A"%char then "Added"
         else if Ascii.eqb c0 "D"%char then "Deleted"
         else if Ascii.eqb c0 "R"%char then "Renamed"
         else "Modified")
    ∧ (c0 ≠ "R"%char → Path fc = rest)
    ∧ (hasTab rest = false → Path fc = rest)
    ∧ (∀ old new, c0 = "R"%char → hasTab old = false →
         rest = old +:+ TAB +:+ new → Path fc = new).
Proof.
  intros Hno. eexists. split; [by apply statusLine_fields|].
  pose proof (findFileDiff_spec diffOutput (regexp.FindAllHeaders diffOutput)) as Hfind.
  cbv zeta in Hfind.
  split; [|split; [|split]].
  - rewrite (proj1 (proj2 (Hfind _))). cbn [ChangeType]. unfold changeTypeStr.
    destruct (Ascii.eqb_spec c0 "A"); [done|].
    destruct (Ascii.eqb_spec c0 "M"); [by subst|].
    destruct (Ascii.eqb_spec c0 "D"); [done|].
    by destruct (Ascii.eqb_spec c0 "R").
  - intros Hr. rewrite (proj1 (Hfind _)). cbn [Path].
    by destruct (Ascii.eqb_spec c0 "R").
  - intros Hrest. rewrite (proj1 (Hfind _)). cbn [Path].
    rewrite SplitN2_no_tab by done. by destruct (Ascii.eqb c0 "R").
  - intros old new -> Hold ->. rewrite (proj1 (Hfind _)). cbn [Path].
    by rewrite SplitN2_app.
Qed.

Lemma status_line_decodes_witness :
  hasTab "R100" = false
  ∧ ∃ fc,
      statusLine sampleDiff ("R100" +:+ TAB +:+ "old/x.py" +:+ TAB +:+ "new/x.py")
      = Returns (Some fc)
      ∧ ChangeType fc = "Renamed" ∧ Path fc = "new/x.py".
Proof.
  split; [done|].
  destruct (status_line_decodes sampleDiff "R" "100"
              ("old/x.py" +:+ TAB +:+ "new/x.py") eq_refl)
    as (fc & Hfc & Htype & _ & _ & Hpath).
  exists fc. split; [exact Hfc|]. split; [exact Htype|].
  by apply (Hpath "old/x.py" "new/x.py").
Defined.

(** The names the parser gives to change types. *)
Lemma changeTypeStr_known (c : ascii) :
  changeTypeStr c ∈ ["Added"; "Modified"; "Deleted"; "Renamed"].
Proof.
  unfold changeTypeStr.
  repeat (match goal with |- context [Ascii.eqb ?a ?b] => destruct (Ascii.eqb a b) end);
    set_solver.
Qed.

Lemma statusLine_known_type diffOutput line fc :
  statusLine diffOutput line = Returns (Some fc) →
  ChangeType fc ∈ ["Added"; "Modified"; "Deleted"; "Renamed"].
Proof.
  unfold statusLine. destruct (String.eqb line EmptyString); [done|].
  destruct (strings.SplitN2 line TAB_byte) as [|code [|path [|]]]; try done.
  destruct (String.get 0 code) as [c0|]; [|done].
  intros [= <-].
  rewrite (proj1 (proj2 (findFileDiff_spec diffOutput _ _))). cbn [ChangeType].
  apply changeTypeStr_known.
Qed.

Lemma parseLines_known_types diffOutput fileListLines acc fileChanges :
  Forall (fun fc => ChangeType fc ∈ ["Added"; "Modified"; "Deleted"; "Renamed"]) acc →
  parseLines diffOutput fileListLines acc = Returns fileChanges →
  Forall (fun fc => ChangeType fc ∈ ["Added"; "Modified"; "Deleted"; "Renamed"])
    fileChanges.
Proof.
  revert acc. induction fileListLines as [|line rest IH]; intros acc Hacc.
  - cbn [parseLines]. by intros [= <-].
  - cbn [parseLines]. destruct (statusLine diffOutput line) as [[fc|]|] eqn:Hline;
      [|by apply IH|done].
    apply IH. apply Forall_app. split; [done|]. apply Forall_singleton.
    by apply (statusLine_known_type diffOutput line).
Qed.

Lemma countType_cons t fc l :
  countType t (fc :: l)
  = (if decide (ChangeType fc = t) then 1 else 0) + countType t l.
Proof.
  unfold countType. rewrite filter_cons.
  destruct (decide (ChangeType fc = t)); [by rewrite len_cons|lia].
Qed.

Lemma known_types_counted (fileChanges : list FileChange) :
  Forall (fun fc => ChangeType fc ∈ ["Added"; "Modified"; "Deleted"; "Renamed"])
    fileChanges →
  countType "Added" fileChanges + countType "Modified" fileChanges
  + countType "Deleted" fileChanges + countType "Renamed" fileChanges
  = len fileChanges.
Proof.
  induction 1 as [|fc l Hfc _ IH]; [done|].
  rewrite !countType_cons, len_cons.
  repeat (apply elem_of_cons in Hfc as [->|Hfc]);
    [..|by apply elem_of_nil in Hfc];
    repeat case_decide; try done; lia.
Qed.

(** X3: every record of the parser has one of the four change types, so in
    the statistics of the digest built from them the counts of added,
    modified, deleted and renamed files add up to the number of files. *)
Theorem parsed_change_types_add_up (diffOutput fileListOutput : string)
    (fileChanges : list FileChange) :
  GetStagedDiffFiles diffOutput fileListOutput = Returns fileChanges →
  Forall (fun fc => ChangeType fc ∈ ["Added"; "Modified"; "Deleted"; "Renamed"])
    fileChanges
  ∧ countType "Added" fileChanges + countType "Modified" fileChanges
    + countType "Deleted" fileChanges + countType "Renamed" fileChanges
    = len fileChanges.
Proof.
  intros Hparse.
  assert (Forall (fun fc => ChangeType fc ∈ ["Added"; "Modified"; "Deleted"; "Renamed"])
            fileChanges) as Htypes.
  { unfold GetStagedDiffFiles in Hparse.
    destruct (String.eqb diffOutput EmptyString).
    - injection Hparse as <-. constructor.
    - by apply (parseLines_known_types diffOutput
                  (fileListLines fileListOutput) []). }
  split; [done|]. by apply known_types_counted.
Qed.

Lemma parsed_change_types_add_up_witness :
  GetStagedDiffFiles twoDirDiff twoDirListing = Returns twoDirChanges
  ∧ countType "Added" twoDirChanges + countType "Modified" twoDirChanges
    + countType "Deleted" twoDirChanges + countType "Renamed" twoDirChanges
    = len twoDirChanges.
Proof.
  assert (GetStagedDiffFiles twoDirDiff twoDirListing = Returns twoDirChanges)
    as Hparse by (by vm_compute).
  split; [done|].
  exact (proj2 (parsed_change_types_add_up _ _ _ Hparse)).
Defined.

(** ** Where the diff of a record starts *)

Lemma length_append (a b : string) :
  String.length (a +:+ b) = (String.length a + String.length b)%nat.
Proof.
  induction a as [|c a IH]; [done|].
  rewrite append_cons. cbn [String.length]. by rewrite IH.
Qed.

Lemma dropBytes_append (a b : string) :
  strings.dropBytes (String.length a) (a +:+ b) = b.
Proof. induction a as [|c a IH]; [done|]. by rewrite append_cons. Qed.

Lemma prefix_append (p s t : string) :
  String.prefix p s = true → String.prefix p (s +:+ t) = true.
Proof.
  rewrite !prefix_iff. intros [u ->]. exists (u +:+ t). by rewrite append_assoc.
Qed.

Lemma prefix_length (p s : string) :
  String.prefix p s = true → (String.length p ≤ String.length s)%nat.
Proof. rewrite prefix_iff. intros [u ->]. rewrite length_append. lia. Qed.

Lemma substring_dropBytes (n m : nat) (s : string) :
  substring n m s = substring 0 m (strings.dropBytes n s).
Proof.
  revert s. induction n as [|n IH]; intros s; [done|].
  destruct s as [|c s]; [by destruct m|]. cbn [substring strings.dropBytes]. apply IH.
Qed.

Lemma prefix_substring (p s : string) (m : nat) :
  String.prefix p s = true → (String.length p ≤ m)%nat →
  String.prefix p (substring 0 m s) = true.
Proof.
  revert s m. induction p as [|a p IH]; intros s m Hp Hm.
  - by destruct (substring 0 m s).
  - destruct s as [|b s]; [done|]. cbn [String.prefix] in Hp.
    destruct (ascii_dec a b) as [->|]; [|done].
    destruct m as [|m]; [cbn [String.length] in Hm; lia|].
    cbn [substring String.prefix]. destruct (ascii_dec b b); [|done].
    apply IH; [done|]. cbn [String.length] in Hm. lia.
Qed.

Lemma Split_nonempty (s : string) (sep : ascii) : strings.Split s sep ≠ [].
Proof.
  destruct s as [|c s]; [done|]. cbn [strings.Split].
  destruct (Ascii.eqb c sep); [done|]. by destruct (strings.Split s sep).
Qed.

(** Splitting and joining again gives the text back. *)
Lemma Join_Split (s : string) (sep : ascii) :
  strings.Join (strings.Split s sep) (String sep EmptyString) = s.
Proof.
  induction s as [|c s IH]; [done|]. cbn [strings.Split].
  pose proof (Split_nonempty s sep) as Hne.
  destruct (strings.Split s sep) as [|hd tl]; [done|].
  destruct (Ascii.eqb_spec c sep) as [->|Hc].
  - cbn [strings.Join]. cbn [strings.Join] in IH. by rewrite IH.
  - destruct tl as [|hd' tl].
    + cbn [strings.Join] in *. by rewrite IH.
    + cbn [strings.Join] in *. by rewrite append_cons, IH.
Qed.

Lemma headerGroupB_prefix (line : string) (k : nat) :
  regexp.headerGroupB line = Some k →
  String.prefix regexp.headerPrefix line = true.
Proof.
  unfold regexp.headerGroupB.
  by destruct (String.prefix regexp.headerPrefix line).
Qed.

Lemma findAllFrom_from (off : nat) (lines : list string) :
  Forall (fun mt => (off ≤ regexp.m0 mt)%nat) (regexp.findAllFrom off lines).
Proof.
  revert off. induction lines as [|l rest IH]; intros off; [constructor|].
  cbn [regexp.findAllFrom].
  assert (Forall (fun mt => (off ≤ regexp.m0 mt)%nat)
            (regexp.findAllFrom (off + String.length l + 1) rest)) as Hrest.
  { eapply Forall_impl; [apply IH|]. cbn. intros mt. lia. }
  destruct (regexp.headerGroupB l); [|done].
  constructor; [cbn; lia|done].
Qed.

Lemma findAllFrom_headersAt (lines : list string) :
  ∀ pre : string,
    headersAt (pre +:+ strings.Join lines NL)
      (regexp.findAllFrom (String.length pre) lines).
Proof.
  induction lines as [|l rest IH]; intros pre; [done|].
  cbn [regexp.findAllFrom].
  set (next := (String.length pre + String.length l + 1)%nat).
  assert (rest ≠ [] →
          pre +:+ strings.Join (l :: rest) NL
          = (pre +:+ l +:+ NL) +:+ strings.Join rest NL
          ∧ String.length (pre +:+ l +:+ NL) = next) as Hstep.
  { intros Hrest. destruct rest as [|l' rest']; [done|]. split.
    - cbn [strings.Join]. by rewrite !append_assoc.
    - rewrite !length_append. cbn [String.length NL]. unfold next. lia. }
  assert (headersAt (pre +:+ strings.Join (l :: rest) NL)
            (regexp.findAllFrom next rest)) as Hlater.
  { destruct rest as [|l' rest']; [done|].
    destruct Hstep as [-> <-]; [done|]. apply IH. }
  destruct (regexp.headerGroupB l) as [k|] eqn:Hl; [|done].
  apply headerGroupB_prefix in Hl.
  cbn [headersAt regexp.m0]. split; [|split; [|done]].
  - assert (strings.Join (l :: rest) NL = l +:+ match rest with
                                               | [] => EmptyString
                                               | _ => NL +:+ strings.Join rest NL
                                               end) as ->.
    { destruct rest; [by rewrite append_empty_r|done]. }
    rewrite dropBytes_append. by apply prefix_append.
  - pose proof (prefix_length _ _ Hl) as Hlen. cbn [String.length regexp.headerPrefix] in Hlen.
    pose proof (findAllFrom_from next rest) as Hfrom.
    destruct (regexp.findAllFrom next rest) as [|nxt later'].
    + rewrite length_append.
      assert (String.length l ≤ String.length (strings.Join (l :: rest) NL))%nat.
      { destruct rest; [done|]. cbn [strings.Join]. rewrite length_append. lia. }
      lia.
    + apply Forall_cons in Hfrom as [Hnxt _]. unfold next in Hnxt. lia.
Qed.

Lemma FindAllHeaders_headersAt (text : string) :
  headersAt text (regexp.FindAllHeaders text).
Proof.
  pose proof (findAllFrom_headersAt (strings.Split text NL_byte) EmptyString) as H.
  unfold NL in H. rewrite (Join_Split text NL_byte) in H. exact H.
Qed.

Lemma findFileDiff_header diffOutput matches fileChange :
  headersAt diffOutput matches →
  let fc := findFileDiff diffOutput matches fileChange in
  (Diff fc = Diff fileChange ∧ IsBinary fc = IsBinary fileChange)
  ∨ String.prefix regexp.headerPrefix (Diff fc) = true.
Proof.
  induction matches as [|mt later IH]; cbn [findFileDiff headersAt]; [by left|].
  intros (Hpre & Hnext & Hlater).
  destruct (_ || _); [|by apply IH].
  right. cbn [Diff]. unfold byteSlice. rewrite substring_dropBytes.
  apply prefix_substring; [done|]. cbn [String.length regexp.headerPrefix].
  destruct later; lia.
Qed.

Lemma statusLine_header diffOutput line fc :
  statusLine diffOutput line = Returns (Some fc) →
  (Diff fc = EmptyString ∧ IsBinary fc = false)
  ∨ String.prefix regexp.headerPrefix (Diff fc) = true.
Proof.
  unfold statusLine. destruct (String.eqb line EmptyString); [done|].
  destruct (strings.SplitN2 line TAB_byte) as [|code [|path [|]]]; try done.
  destruct (String.get 0 code) as [c0|]; [|done].
  intros [= <-].
  apply (findFileDiff_header diffOutput (regexp.FindAllHeaders diffOutput)).
  apply FindAllHeaders_headersAt.
Qed.

Lemma parseLines_header diffOutput fileListLines acc fileChanges :
  Forall (fun fc => (Diff fc = EmptyString ∧ IsBinary fc = false)
                    ∨ String.prefix regexp.headerPrefix (Diff fc) = true) acc →
  parseLines diffOutput fileListLines acc = Returns fileChanges →
  Forall (fun fc => (Diff fc = EmptyString ∧ IsBinary fc = false)
                    ∨ String.prefix regexp.headerPrefix (Diff fc) = true)
    fileChanges.
Proof.
  revert acc. induction fileListLines as [|line rest IH]; intros acc Hacc.
  - cbn [parseLines]. by intros [= <-].
  - cbn [parseLines]. destruct (statusLine diffOutput line) as [[fc|]|] eqn:Hline;
      [|by apply IH|done].
    apply IH. apply Forall_app. split; [done|]. apply Forall_singleton.
    by apply (statusLine_header diffOutput line).
Qed.

(** X4: the diff text of every record of the parser is either empty, and
    then the record is not binary, or it starts with [diff --git a/]: a
    record never holds a piece of diff cut elsewhere than at a file header,
    and a binary record always has its diff. *)
Theorem parsed_diff_starts_at_header (diffOutput fileListOutput : string)
    (fileChanges : list FileChange) :
  GetStagedDiffFiles diffOutput fileListOutput = Returns fileChanges →
  Forall (fun fc => (Diff fc = EmptyString ∧ IsBinary fc = false)
                    ∨ strings.HasPrefix (Diff fc) "diff --git a/" = true)
    fileChanges.
Proof.
  unfold GetStagedDiffFiles. destruct (String.eqb diffOutput EmptyString).
  - intros [= <-]. constructor.
  - apply (parseLines_header diffOutput (fileListLines fileListOutput) []).
    constructor.
Qed.

Lemma parsed_diff_starts_at_header_witness :
  GetStagedDiffFiles twoDirDiff twoDirListing = Returns twoDirChanges
  ∧ Forall (fun fc => (Diff fc = EmptyString ∧ IsBinary fc = false)
                      ∨ strings.HasPrefix (Diff fc) "diff --git a/" = true)
      twoDirChanges.
Proof.
  assert (GetStagedDiffFiles twoDirDiff twoDirListing = Returns twoDirChanges)
    as Hparse by (by vm_compute).
  split; [done|].
  exact (parsed_diff_starts_at_header _ _ _ Hparse).
Defined.

(** * Further properties of the digest *)

(** ** The directory groups *)

Lemma dirGroups_snoc (fileChanges : list FileChange) (fc : FileChange) :
  dirGroups (fileChanges ++ [fc]) = addToGroup (dirGroups fileChanges) fc.
Proof. unfold dirGroups. by rewrite foldl_app. Qed.

(** The group of a directory holds the paths of its files, in the order of
    the files; a directory without file has no group. *)
Lemma dirGroups_lookup (fileChanges : list FileChange) (dir : string) :
  dirGroups fileChanges !! dir
  = match Path <$> filter (fun fc => dirOf (Path fc) = dir) fileChanges with
    | [] => None
    | files => Some files
    end.
Proof.
  induction fileChanges as [|fc l IH] using rev_ind; [done|].
  rewrite dirGroups_snoc. unfold addToGroup.
  rewrite filter_app, filter_cons, fmap_app, lookup_insert.
  destruct (decide (dirOf (Path fc) = dir)) as [->|Hne].
  - rewrite IH. cbn [filter list_filter fmap list_fmap].
    by destruct (Path <$> filter (fun fc0 => dirOf (Path fc0) = dir) l).
  - rewrite IH. cbn. by rewrite app_nil_r.
Qed.

Lemma groups_total_insert (groups : gmap string (list string)) dir files :
  sum_list_with (fun g : string * list string => length g.2)
    (map_to_list (<[dir := files]> groups))
  = (length files
     + sum_list_with (fun g : string * list string => length g.2)
         (map_to_list (delete dir groups)))%nat.
Proof.
  rewrite <- insert_delete_eq.
  by rewrite map_to_list_insert by apply lookup_delete_eq.
Qed.

Lemma groups_total_lookup (groups : gmap string (list string)) dir :
  sum_list_with (fun g : string * list string => length g.2) (map_to_list groups)
  = (length (default [] (groups !! dir))
     + sum_list_with (fun g : string * list string => length g.2)
         (map_to_list (delete dir groups)))%nat.
Proof.
  destruct (groups !! dir) as [files|] eqn:Hdir.
  - rewrite <- (insert_delete_id groups dir files) at 1 by done.
    by rewrite map_to_list_insert by apply lookup_delete_eq.
  - by rewrite delete_id.
Qed.

Lemma dirGroups_total (fileChanges : list FileChange) :
  sum_list_with (fun g : string * list string => length g.2)
    (map_to_list (dirGroups fileChanges))
  = length fileChanges.
Proof.
  induction fileChanges as [|fc l IH] using rev_ind; [done|].
  rewrite dirGroups_snoc. unfold addToGroup.
  rewrite groups_total_insert, !length_app. cbn [length].
  rewrite (groups_total_lookup (dirGroups l) (dirOf (Path fc))) in IH. lia.
Qed.

(** X5: the directory groups are a partition of the files.  In whatever
    order the range loop visits them, every directory occurs once, its group
    is not empty and holds the paths of the files of that directory in the
    order of the files, and the file counts written add up to the number of
    files. *)
Theorem directory_groups_partition_files
    (fileChanges : list FileChange) (order : list (string * list string)) :
  rangeOrder (dirGroups fileChanges) order →
  NoDup order.*1
  ∧ sum_list_with (fun g : string * list string => length g.2) order
    = length fileChanges
  ∧ ∀ dir files,
      (dir, files) ∈ order
      ↔ files ≠ []
        ∧ files = Path <$> filter (fun fc => dirOf (Path fc) = dir) fileChanges.
Proof.
  unfold rangeOrder. intros Horder. split; [|split].
  - rewrite Horder. apply NoDup_fst_map_to_list.
  - rewrite Horder. apply dirGroups_total.
  - intros dir files. rewrite Horder, elem_of_map_to_list, dirGroups_lookup.
    destruct (Path <$> filter (fun fc => dirOf (Path fc) = dir) fileChanges)
      as [|p ps].
    + split; [done|]. by intros [? ->].
    + split; [by intros [= <-]|by intros [_ ->]].
Qed.

Lemma directory_groups_partition_files_witness :
  rangeOrder (dirGroups twoDirChanges) webFirst
  ∧ sum_list_with (fun g : string * list string => length g.2) webFirst
    = length twoDirChanges.
Proof.
  assert (rangeOrder (dirGroups twoDirChanges) webFirst) as Horder.
  { unfold rangeOrder. vm_compute. first [reflexivity | apply perm_swap]. }
  split; [done|].
  exact (proj1 (proj2 (directory_groups_partition_files _ _ Horder))).
Defined.

(** ** What the order of the range loop changes *)

Lemma length_writeAll (pieces : list string) :
  String.length (writeAll pieces) = sum_list_with String.length pieces.
Proof.
  induction pieces as [|p l IH]; [done|].
  cbn [writeAll sum_list_with]. by rewrite length_append, IH.
Qed.

(** X6: two results of [PrepareSmartDiff] for the same file changes and
    budget differ at most in the order of the lines of the directory
    section.  They have the same length; with one directory at most they
    are equal; with more, each is the same text [before], then the lines
    [groupLine] of the directory groups in one order of the range loop, then
    the same text [after], and the two orders are permutations of each
    other. *)
Theorem digests_differ_in_directory_order_only
    (fileChanges : list FileChange) (maxTokens : Z) (out1 out2 : string) :
  let before :=
    "Commit includes " +:+ fmt_d (len fileChanges) +:+ " files:" +:+ NL
    +:+ statistics fileChanges +:+ NL +:+ "Changes by directory:" +:+ NL in
  let after :=
    NL +:+ "Changed files:" +:+ NL
    +:+ writeAll (map fileLine fileChanges)
    +:+ NL +:+ "Selected diff content:" +:+ NL
    +:+ writeAll (map (fileSection (tokensPerFile maxTokens (len fileChanges)))
                      fileChanges) in
  PrepareSmartDiffOn fileChanges maxTokens out1 →
  PrepareSmartDiffOn fileChanges maxTokens out2 →
  String.length out1 = String.length out2
  ∧ ((size (dirGroups fileChanges) ≤ 1)%nat → out1 = out2)
  ∧ ((1 < size (dirGroups fileChanges))%nat →
     ∃ order1 order2,
       rangeOrder (dirGroups fileChanges) order1
       ∧ rangeOrder (dirGroups fileChanges) order2
       ∧ order1 ≡ₚ order2
       ∧ out1 = before +:+ writeAll (map groupLine order1) +:+ after
       ∧ out2 = before +:+ writeAll (map groupLine order2) +:+ after).
Proof.
  intros before after (order1 & Hord1 & ->) (order2 & Hord2 & ->).
  assert (order1 ≡ₚ order2) as Hperm.
  { unfold rangeOrder in *. by rewrite Hord1, Hord2. }
  destruct (Nat.ltb_spec 1 (size (dirGroups fileChanges))) as [Hmany|Hfew].
  - assert (fileChanges ≠ []) as Hne.
    { intros ->. vm_compute in Hmany. lia. }
    assert (∀ order,
              smartDiff order fileChanges maxTokens
              = before +:+ writeAll (map groupLine order) +:+ after) as Hshape.
    { intros order. rewrite smartDiff_sections by done.
      unfold digestHead, directorySection.
      destruct (Nat.ltb_spec 1 (size (dirGroups fileChanges))); [|lia].
      subst before after. by rewrite !append_assoc. }
    split; [|split; [lia|]].
    + rewrite !Hshape, !length_append, !length_writeAll.
      by rewrite (Permutation_map groupLine Hperm).
    + intros _. exists order1, order2. by rewrite !Hshape.
  - assert (smartDiff order1 fileChanges maxTokens
            = smartDiff order2 fileChanges maxTokens) as Hsame.
    { unfold smartDiff, digestHead, directorySection.
      by destruct (Nat.ltb_spec 1 (size (dirGroups fileChanges))); [lia|]. }
    split; [by rewrite Hsame|]. split; [done|lia].
Qed.

Lemma digests_differ_in_directory_order_only_witness :
  (PrepareSmartDiffOn twoDirChanges 4000 (smartDiff apiFirst twoDirChanges 4000)
   ∧ PrepareSmartDiffOn twoDirChanges 4000 (smartDiff webFirst twoDirChanges 4000))
  ∧ String.length (smartDiff apiFirst twoDirChanges 4000)
    = String.length (smartDiff webFirst twoDirChanges 4000).
Proof.
  assert (rangeOrder (dirGroups twoDirChanges) apiFirst) as Hapi.
  { unfold rangeOrder. vm_compute. first [reflexivity | apply perm_swap]. }
  assert (rangeOrder (dirGroups twoDirChanges) webFirst) as Hweb.
  { unfold rangeOrder. vm_compute. first [reflexivity | apply perm_swap]. }
  assert (PrepareSmartDiffOn twoDirChanges 4000 (smartDiff apiFirst twoDirChanges 4000))
    as H1 by (by exists apiFirst).
  assert (PrepareSmartDiffOn twoDirChanges 4000 (smartDiff webFirst twoDirChanges 4000))
    as H2 by (by exists webFirst).
  split; [done|].
  exact (proj1 (digests_differ_in_directory_order_only _ _ _ _ H1 H2)).
Defined.

Lemma dirGroups_one_directory (fileChanges : list FileChange) (dir : string) :
  Forall (fun fc => dirOf (Path fc) = dir) fileChanges →
  (size (dirGroups fileChanges) ≤ 1)%nat.
Proof.
  intros Hdir.
  assert (dom (dirGroups fileChanges) ⊆ ({[dir]} : gset string)) as Hdom.
  { intros d [files Hd]%elem_of_dom. rewrite dirGroups_lookup in Hd.
    destruct (filter (fun fc => dirOf (Path fc) = d) fileChanges) as [|fc l] eqn:Hf;
      [done|].
    assert (fc ∈ filter (fun fc => dirOf (Path fc) = d) fileChanges) as Hin
      by (rewrite Hf; left).
    apply list_elem_of_filter in Hin as [Hd' Hin].
    rewrite Forall_forall in Hdir. apply Hdir in Hin. set_solver. }
  apply subseteq_size in Hdom. rewrite size_singleton, size_dom in Hdom. done.
Qed.

(** X7: when all files lie in one directory (or all in the root), the
    result of [PrepareSmartDiff] does not depend on the order of the range
    loop: the call has one result only. *)
Theorem one_directory_one_digest
    (fileChanges : list FileChange) (maxTokens : Z) (dir out1 out2 : string) :
  Forall (fun fc => dirOf (Path fc) = dir) fileChanges →
  PrepareSmartDiffOn fileChanges maxTokens out1 →
  PrepareSmartDiffOn fileChanges maxTokens out2 →
  out1 = out2.
Proof.
  intros Hdir%dirGroups_one_directory (order1 & _ & ->) (order2 & _ & ->).
  unfold smartDiff, digestHead, directorySection.
  by destruct (Nat.ltb_spec 1 (size (dirGroups fileChanges))); [lia|].
Qed.

Lemma one_directory_one_digest_witness :
  Forall (fun fc => dirOf (Path fc) = "foo") [sampleChange]
  ∧ PrepareSmartDiffOn [sampleChange] 4000 (smartDiffRun [sampleChange] 4000)
  ∧ smartDiff [] [sampleChange] 4000 = smartDiffRun [sampleChange] 4000.
Proof.
  assert (Forall (fun fc => dirOf (Path fc) = "foo") [sampleChange]) as Hdir
    by (by repeat constructor).
  assert (PrepareSmartDiffOn [sampleChange] 4000 (smartDiffRun [sampleChange] 4000))
    as Hrun by (exists (map_to_list (dirGroups [sampleChange]));
                split; [apply rangeOrder_exists|done]).
  split; [done|]. split; [done|].
  apply (one_directory_one_digest [sampleChange] 4000 "foo"); [done| |done].
  exists (map_to_list (dirGroups [sampleChange])).
  split; [apply rangeOrder_exists|by vm_compute].
Defined.

(** ** What the truncation path copies from the diff *)

Lemma Join_cons (a : string) (l : list string) (sep : string) :
  l ≠ [] → strings.Join (a :: l) sep = a +:+ sep +:+ strings.Join l sep.
Proof. by destruct l. Qed.

Lemma Join_app (l1 l2 : list string) (sep : string) :
  l1 ≠ [] → l2 ≠ [] →
  strings.Join (l1 ++ l2) sep = strings.Join l1 sep +:+ sep +:+ strings.Join l2 sep.
Proof.
  intros H1 H2. induction l1 as [|a l1 IH]; [done|].
  rewrite <- app_comm_cons. rewrite Join_cons by (by destruct l1, l2).
  destruct l1 as [|b l1]; [done|].
  rewrite IH by done. rewrite (Join_cons a (b :: l1)) by done.
  by rewrite !append_assoc.
Qed.

Lemma Join_middle (l1 mid l3 : list string) (sep : string) :
  mid ≠ [] →
  ∃ a b, strings.Join (l1 ++ mid ++ l3) sep = a +:+ strings.Join mid sep +:+ b.
Proof.
  intros Hmid.
  assert (∃ b, strings.Join (mid ++ l3) sep = strings.Join mid sep +:+ b) as [b Hb].
  { destruct l3 as [|x l3].
    - exists EmptyString. by rewrite app_nil_r, append_empty_r.
    - eexists. by apply Join_app. }
  destruct l1 as [|x l1].
  - exists EmptyString, b. cbn [app]. by rewrite Hb.
  - exists (strings.Join (x :: l1) sep +:+ sep), b.
    rewrite Join_app by (done || by destruct mid).
    by rewrite Hb, !append_assoc.
Qed.

(** X8: in the truncation path the lines written before the marker are a
    prefix of the diff, byte for byte: the diff is these five lines, a
    newline, and the rest. *)
Theorem truncated_head_is_prefix_of_diff (perFile : Z) (fc : FileChange) :
  let diffLines := strings.Split (Diff fc) NL_byte in
  IsBinary fc = false →
  ChangeType fc ≠ "Deleted" →
  Diff fc ≠ EmptyString →
  charBudget perFile < Z.of_nat (String.length (Diff fc)) →
  (5 < length diffLines)%nat →
  ∃ head rest,
    head = strings.Join (take 5 diffLines) NL
    ∧ Diff fc = head +:+ NL +:+ rest
    ∧ fileSection perFile fc
      = sectionHeader fc +:+ NL +:+ head +:+ truncationMarker
        +:+ importantSection (importantChunksOf diffLines).
Proof.
  intros diffLines Hbin Hdel Hne Hover Hlong.
  exists (strings.Join (take 5 diffLines) NL), (strings.Join (drop 5 diffLines) NL).
  split; [done|]. split.
  - rewrite <- Join_app.
    + rewrite take_drop. unfold diffLines, NL. by rewrite Join_Split.
    + intros Htake. apply (f_equal length) in Htake.
      rewrite length_take in Htake. cbn [length] in Htake. clearbody diffLines. lia.
    + intros Hdrop. apply (f_equal length) in Hdrop.
      rewrite length_drop in Hdrop. cbn [length] in Hdrop. clearbody diffLines. lia.
  - rewrite fileSection_text, diffPortion_over by done. cbv zeta. fold diffLines.
    by destruct (Nat.ltb_spec 5 (length diffLines)); [|lia].
Qed.

Lemma truncated_head_is_prefix_of_diff_witness :
  (IsBinary sampleChange = false
   ∧ ChangeType sampleChange ≠ "Deleted"
   ∧ Diff sampleChange ≠ EmptyString
   ∧ charBudget 0 < Z.of_nat (String.length (Diff sampleChange))
   ∧ (5 < length (strings.Split (Diff sampleChange) NL_byte))%nat)
  ∧ ∃ head rest, Diff sampleChange = head +:+ NL +:+ rest
                 ∧ fileSection 0 sampleChange
                   = sectionHeader sampleChange +:+ NL +:+ head +:+ truncationMarker
                     +:+ importantSection
                           (importantChunksOf
                              (strings.Split (Diff sampleChange) NL_byte)).
Proof.
  assert (ChangeType sampleChange ≠ "Deleted") as Hdel by discriminate.
  assert (Diff sampleChange ≠ EmptyString) as Hne by discriminate.
  assert (charBudget 0 < Z.of_nat (String.length (Diff sampleChange))) as Hover
    by (by vm_compute).
  assert (5 < length (strings.Split (Diff sampleChange) NL_byte))%nat as Hlong
    by (vm_compute; lia).
  split; [by repeat split|].
  destruct (truncated_head_is_prefix_of_diff 0 sampleChange eq_refl Hdel Hne Hover Hlong)
    as (head & rest & _ & Hdiff & Hsec).
  by exists head, rest.
Defined.

(** ** The chunks, as ranges of lines *)

Lemma runsFrom_weaken (from n n' : nat) (ranges : list (nat * nat)) :
  (n ≤ n')%nat → runsFrom from n ranges → runsFrom from n' ranges.
Proof.
  intros Hn. revert from. induction ranges as [|r rest IH]; intros from; [done|].
  cbn [runsFrom]. intros (H1 & H2 & H3 & H4). repeat split; [done|done|lia|by apply IH].
Qed.

Lemma runsFrom_snoc (from n n' lo hi : nat) (ranges : list (nat * nat)) :
  runsFrom from n ranges → (from ≤ lo)%nat → (n ≤ lo)%nat →
  (lo + 5 ≤ hi)%nat → (hi < n')%nat →
  runsFrom from n' (ranges ++ [(lo, hi)]).
Proof.
  intros Hruns Hfrom Hn Hlen Hhi. revert from Hruns Hfrom.
  induction ranges as [|r rest IH]; intros from Hruns Hfrom.
  - cbn. repeat split; lia.
  - cbn [runsFrom app] in *. destruct Hruns as (H1 & H2 & H3 & H4).
    repeat split; [done|done|lia|]. apply IH; [done|lia].
Qed.

Ltac cases_eqb :=
  repeat match goal with
         | |- context [?a =? ?b] => destruct (Z.eqb_spec a b)
         end; lia.

Lemma scan_ranges L r i s c (ranges : list (nat * nat)) :
  0 ≤ i →
  (Z.to_nat i + length r = length L)%nat →
  s = -1 ∨ 0 ≤ s < i →
  c = chunkOf L <$> ranges →
  runsFrom 0 (Z.to_nat (if s =? -1 then i else s)) ranges →
  ∃ ranges',
    (scanChunks L i r s c).2 = chunkOf L <$> ranges'
    ∧ runsFrom 0 (length L) ranges'.
Proof.
  revert i s c ranges.
  induction r as [|line r IH]; intros i s c ranges Hi Hlen Hs Hc Hruns.
  - exists ranges. split; [done|]. eapply runsFrom_weaken; [|done].
    cbn [length] in Hlen. destruct (Z.eqb_spec s (-1)); lia.
  - cbn [length] in Hlen. cbn [scanChunks].
    destruct (isImportant line).
    + apply (IH _ _ _ ranges); [lia|lia| |done|].
      * right. destruct (Z.eqb_spec s (-1)); lia.
      * eapply runsFrom_weaken; [|exact Hruns].
        cases_eqb.
    + destruct (Z.eqb_spec s (-1)) as [->|Hne]; cbn [negb andb].
      { apply (IH _ _ _ ranges); [lia|lia|by left|done|].
        eapply runsFrom_weaken; [|exact Hruns]. cases_eqb. }
      destruct Hs as [|Hs]; [done|].
      destruct (Z.ltb_spec (s + 4) i) as [Hfar|Hnear].
      * destruct (Z.ltb_spec s (i - 1)); [|lia].
        apply (IH _ _ _ (ranges ++ [(Z.to_nat s, Z.to_nat i)])); [lia|lia|by left| |].
        -- rewrite fmap_app, Hc. f_equal. cbn. unfold chunkOf. cbn [fst snd].
           by rewrite !Z2Nat.id by lia.
        -- replace (Z.to_nat (if -1 =? -1 then i + 1 else -1))
             with (Z.to_nat (i + 1)) by done.
           apply (runsFrom_snoc 0 (Z.to_nat s)); [|lia|lia|lia|lia].
           eapply runsFrom_weaken; [|exact Hruns]. cases_eqb.
      * apply (IH _ _ _ ranges); [lia|lia|right; lia|done|].
        eapply runsFrom_weaken; [|exact Hruns]. cases_eqb.
Qed.

Lemma chunkOf_substring (L : list string) (r : nat * nat) :
  (r.1 < r.2)%nat → (r.2 ≤ length L)%nat →
  ∃ a b, strings.Join L NL = a +:+ chunkOf L r +:+ b.
Proof.
  intros Hlt Hle. unfold chunkOf, lineSlice. rewrite !Nat2Z.id.
  destruct (Join_middle (take r.1 L) (take (r.2 - r.1) (drop r.1 L))
              (drop (r.2 - r.1) (drop r.1 L)) NL) as (a & b & Hab).
  { intros Hnil. apply (f_equal length) in Hnil.
    rewrite length_take, length_drop in Hnil. cbn [length] in Hnil. lia. }
  exists a, b. rewrite <- Hab. by rewrite !take_drop.
Qed.

Lemma runsFrom_Forall (from n : nat) (ranges : list (nat * nat)) :
  runsFrom from n ranges →
  Forall (fun r => (r.1 < r.2)%nat ∧ (r.2 ≤ n)%nat) ranges.
Proof.
  revert from. induction ranges as [|r rest IH]; intros from; [constructor|].
  cbn [runsFrom]. intros (H1 & H2 & H3 & H4). constructor; [lia|by eapply IH].
Qed.

(** X9: the chunks written are pieces of the diff, in the order of the
    diff and without overlap: they are the lines of increasing ranges of at
    least five lines, each range starting after the end of the one before,
    and every chunk is a contiguous part of the diff text. *)
Theorem chunks_are_disjoint_pieces_of_diff (diff : string) :
  let diffLines := strings.Split diff NL_byte in
  ∃ ranges,
    importantChunksOf diffLines = chunkOf diffLines <$> ranges
    ∧ runsFrom 0 (length diffLines) ranges
    ∧ Forall (fun chunk => ∃ a b, diff = a +:+ chunk +:+ b)
        (importantChunksOf diffLines).
Proof.
  intros diffLines. unfold importantChunksOf.
  destruct (scan_ranges diffLines diffLines 0 (-1) [] []) as (ranges & Hchunks & Hruns);
    [done|done|by left|done|done|].
  exists ranges. split; [done|]. split; [done|].
  rewrite Hchunks. apply Forall_fmap.
  eapply Forall_impl; [by eapply runsFrom_Forall|].
  intros r [Hlt Hle]. cbn.
  rewrite <- (Join_Split diff NL_byte). by apply chunkOf_substring.
Qed.

(** * The prompt limit *)

Example Fields_example :
  Fields (" a" +:+ TAB +:+ "bc  d" +:+ NL) = ["a"; "bc"; "d"].
Proof. by vm_compute. Qed.

Lemma leadingSpace_space (rest : string) :
  strings.leadingSpace (String " " rest) = Some 1%nat.
Proof. by destruct rest. Qed.

Lemma leadingSpace_prefix (s t : string) (n : nat) :
  strings.leadingSpace s = Some n → ∃ m, strings.leadingSpace (s +:+ t) = Some m.
Proof.
  unfold strings.leadingSpace.
  destruct (find (fun enc => String.prefix enc s) strings.spaceEncodings)
    as [enc|] eqn:Hfind; [|done].
  intros _. apply find_some in Hfind as [Hin Hpre].
  destruct (find (fun enc => String.prefix enc (s +:+ t)) strings.spaceEncodings)
    as [enc'|] eqn:Hfind'; [by eexists|].
  eapply find_none in Hfind'; [|exact Hin]. cbn in Hfind'.
  by rewrite prefix_append in Hfind'.
Qed.

(** ** Words read by [Fields] *)

Lemma cleanBefore_snoc (w : string) (c : ascii) (rest : string) :
  cleanBefore w (String c rest) →
  strings.leadingSpace (String c rest) = None →
  cleanBefore (w +:+ String c EmptyString) rest.
Proof.
  induction w as [|a w IH]; intros Hw Hc.
  - by split.
  - destruct Hw as [Hhead Hw]. rewrite append_cons. split; [|by apply IH].
    rewrite <- append_cons, append_assoc. exact Hhead.
Qed.

Lemma cleanBefore_alone (w rest : string) :
  cleanBefore w rest → cleanBefore w EmptyString.
Proof.
  induction w as [|a w IH]; [done|]. intros [Hhead Hw]. split; [|by apply IH].
  rewrite append_empty_r.
  destruct (strings.leadingSpace (String a w)) as [n|] eqn:Hn; [|done].
  destruct (leadingSpace_prefix _ rest _ Hn) as [m Hm]. congruence.
Qed.

Lemma snoc_not_empty (w : string) (c : ascii) :
  String.eqb (w +:+ String c EmptyString) EmptyString = false.
Proof. by destruct w. Qed.

(** Every field is a word, the one being read included. *)
Lemma fieldsFrom_words (s : string) :
  ∀ skip cur,
    (skip = 0%nat → cleanBefore cur s) →
    (skip ≠ 0%nat → cur = EmptyString) →
    Forall isWord (fieldsFrom skip cur s).
Proof.
  induction s as [|c s IH]; intros skip cur Hclean Hskip.
  - cbn [fieldsFrom]. destruct (String.eqb_spec cur EmptyString); [constructor|].
    destruct skip; [|by specialize (Hskip ltac:(done))].
    apply Forall_singleton. split; [done|]. by apply Hclean.
  - cbn [fieldsFrom]. destruct skip as [|k].
    + specialize (Hclean eq_refl).
      destruct (strings.leadingSpace (String c s)) as [n|] eqn:Hn.
      * apply Forall_app. split.
        -- destruct (String.eqb_spec cur EmptyString); [constructor|].
           apply Forall_singleton. split; [done|]. by eapply cleanBefore_alone.
        -- apply IH; [by intros _|done].
      * apply IH; [|done]. intros _. by apply cleanBefore_snoc.
    + rewrite Hskip by done. apply IH; [by intros _|done].
Qed.

Lemma Fields_words (s : string) : Forall isWord (Fields s).
Proof. apply fieldsFrom_words; [by intros _|done]. Qed.

(** ** Joining words with a space and reading them again *)

(** No white-space rune holds a space after its first byte. *)
Lemma spaceEncodings_tail :
  Forall (fun enc => match enc with
                     | String _ tail => contains tail " " = false
                     | EmptyString => False
                     end) strings.spaceEncodings.
Proof. vm_compute. repeat constructor. Qed.

Lemma prefix_before_space (tail b x : string) :
  contains tail " " = false →
  String.prefix tail (b +:+ String " " x) = true → String.prefix tail b = true.
Proof.
  revert b. induction tail as [|e tail IH]; intros b Hno Hpre; [by destruct b|].
  cbn [contains] in Hno. apply orb_false_iff in Hno as [Hhead Htail].
  destruct b as [|c b].
  - cbn [String.prefix] in Hpre. change (EmptyString +:+ String " " x) with (String " " x) in Hpre.
    cbn [String.prefix] in *. destruct (ascii_dec e " ") as [->|]; [|done].
    cbn [String.prefix] in Hhead. destruct (ascii_dec " " " "); [|done].
    by destruct tail.
  - rewrite append_cons in Hpre. cbn [String.prefix] in *.
    destruct (ascii_dec e c); [|done]. by apply IH.
Qed.

Lemma leadingSpace_before_space (b x : string) :
  b ≠ EmptyString →
  strings.leadingSpace b = None →
  strings.leadingSpace (b +:+ String " " x) = None.
Proof.
  intros Hb. unfold strings.leadingSpace.
  destruct (find (fun enc => String.prefix enc b) strings.spaceEncodings)
    as [enc|] eqn:Hfind; [done|]. intros _.
  destruct (find (fun enc => String.prefix enc (b +:+ String " " x))
              strings.spaceEncodings) as [enc|] eqn:Hfind'; [|done].
  apply find_some in Hfind' as [Hin Hpre].
  eapply find_none in Hfind; [|exact Hin]. cbn in Hfind.
  pose proof spaceEncodings_tail as Htails.
  rewrite Forall_forall in Htails. apply list_elem_of_In, Htails in Hin.
  destruct enc as [|e tail]; [done|].
  destruct b as [|c b]; [done|].
  rewrite append_cons in Hpre. cbn [String.prefix] in *.
  destruct (ascii_dec e c); [|done].
  by rewrite (prefix_before_space tail b x) in Hfind.
Qed.

Lemma cleanBefore_space (w x : string) :
  cleanBefore w EmptyString → cleanBefore w (String " " x).
Proof.
  induction w as [|a w IH]; [done|]. intros [Hhead Hw]. split; [|by apply IH].
  rewrite append_empty_r in Hhead. by apply leadingSpace_before_space.
Qed.

Lemma fieldsFrom_word (w cur rest : string) :
  cleanBefore w rest →
  fieldsFrom 0 cur (w +:+ rest) = fieldsFrom 0 (cur +:+ w) rest.
Proof.
  revert cur. induction w as [|a w IH]; intros cur Hw.
  - by rewrite append_empty_r.
  - destruct Hw as [Hhead Hw]. rewrite append_cons in *. cbn [fieldsFrom].
    rewrite Hhead, IH by done. by rewrite append_assoc.
Qed.

Lemma Fields_Join (words : list string) :
  Forall isWord words → Fields (strings.Join words " ") = words.
Proof.
  unfold Fields. induction 1 as [|w ws [Hne Hw] Hws IH]; [done|].
  destruct ws as [|w' ws].
  - cbn [strings.Join]. rewrite <- (append_empty_r w) at 1.
    rewrite fieldsFrom_word by done. cbn [fieldsFrom].
    by rewrite eqb_string_false.
  - rewrite Join_cons by done.
    rewrite fieldsFrom_word by (by apply cleanBefore_space).
    change (" " +:+ strings.Join (w' :: ws) " ")
      with (String " " (strings.Join (w' :: ws) " ")).
    cbn [fieldsFrom]. rewrite leadingSpace_space.
    change (EmptyString +:+ w) with w. rewrite eqb_string_false by done.
    cbn [app Nat.sub]. by rewrite IH.
Qed.

(** ** [TruncateInput] *)

Lemma truncatedWord_word : isWord truncatedWord.
Proof. split; [done|]. vm_compute. tauto. Qed.

(** X10: the prompt is returned as it is, and reported as not truncated,
    exactly when it has no more words than [maxTokens]; with more words the
    call never reports it as not truncated. *)
Theorem prompt_within_limit_is_untouched (prompt : string) (maxTokens : Z) :
  (EstimateTokens prompt ≤ maxTokens ↔
     TruncateInput prompt maxTokens = Returns (prompt, false)) ∧
  (maxTokens < EstimateTokens prompt ↔
     ∀ out, TruncateInput prompt maxTokens ≠ Returns (out, false)).
Proof.
  unfold TruncateInput, EstimateTokens.
  destruct (Z.leb_spec (len (Fields prompt)) maxTokens) as [Hle|Hgt].
  - split; [done|]. split; [lia|]. intros Hno. by destruct (Hno prompt).
  - destruct (Z.ltb_spec maxTokens (len (Fields prompt))); [|lia].
    destruct ((_ <? 0) || _).
    + split; [split; [lia|done]|]. split; [by intros _ out|lia].
    + split; [split; [lia|by intros [= _]]|]. split; [by intros _ out|lia].
Qed.

(** X11: the call panics exactly when [maxTokens] is [-2] or less,
    whatever the prompt: [keepTokens] is then negative and the slice
    [words[:keepTokens]] is out of range. *)
Theorem truncation_panics_iff_limit_below_minus_one (prompt : string) (maxTokens : Z) :
  TruncateInput prompt maxTokens = Panics ↔ maxTokens ≤ -2.
Proof.
  unfold TruncateInput, EstimateTokens.
  pose proof (len_nonneg (Fields prompt)) as Hlen.
  destruct (Z.leb_spec (len (Fields prompt)) maxTokens) as [Hle|Hgt]; [split; [done|lia]|].
  destruct (Z.ltb_spec maxTokens (len (Fields prompt))); [|lia].
  pose proof (Z.quot_pos maxTokens 2) as Hpos.
  destruct (Z.ltb_spec (maxTokens ÷ 2) 0) as [Hneg|Hnonneg]; cbn [orb].
  - split; [|done]. intros _.
    destruct (Z.le_gt_cases maxTokens (-2)) as [|Hm]; [done|].
    assert (maxTokens = -1 ∨ 0 ≤ maxTokens) as [->|Hm0] by lia; [done|].
    specialize (Hpos Hm0 ltac:(lia)). lia.
  - assert (-2 < maxTokens) as Hm.
    { destruct (Z.le_gt_cases maxTokens (-2)) as [Hm|]; [|lia].
      pose proof (Z.quot_le_mono maxTokens (-2) 2 ltac:(lia) Hm) as Hq.
      change (-2 ÷ 2) with (-1) in Hq. lia. }
    assert (maxTokens ÷ 2 ≤ len (Fields prompt)) as Hk.
    { assert (maxTokens = -1 ∨ 0 ≤ maxTokens) as [->|Hm0] by lia; [done|].
      pose proof (Z.quot_le_upper_bound maxTokens 2 maxTokens ltac:(lia)). lia. }
    destruct (Z.ltb_spec (len (Fields prompt)) (maxTokens ÷ 2)); [lia|].
    split; [done|lia].
Qed.

(** X12: a prompt with more words than [maxTokens] comes back, reported as
    truncated, as a text whose words are the first and the last
    [maxTokens/2] words of the prompt around the word [truncatedWord]: it
    has [2*(maxTokens/2) + 1] words, which is more than [maxTokens] exactly
    when [maxTokens] is even. *)
Theorem truncated_prompt_words (prompt : string) (maxTokens : Z) :
  0 ≤ maxTokens < EstimateTokens prompt →
  ∃ out,
    TruncateInput prompt maxTokens = Returns (out, true)
    ∧ Fields out
      = take (Z.to_nat (maxTokens / 2)) (Fields prompt)
        ++ truncatedWord
        :: drop (length (Fields prompt) - Z.to_nat (maxTokens / 2)) (Fields prompt)
    ∧ EstimateTokens out = 2 * (maxTokens / 2) + 1
    ∧ (maxTokens < EstimateTokens out ↔ Z.even maxTokens = true).
Proof.
  intros [Hm0 Hgt]. unfold TruncateInput.
  rewrite <- Z.quot_div_nonneg by lia.
  destruct (Z.leb_spec (EstimateTokens prompt) maxTokens); [lia|].
  unfold EstimateTokens in *.
  destruct (Z.ltb_spec maxTokens (len (Fields prompt))); [|lia].
  pose proof (Z.quot_pos maxTokens 2 Hm0 ltac:(lia)) as Hpos.
  assert (2 * (maxTokens ÷ 2) ≤ maxTokens) as Hdouble.
  { rewrite Z.quot_div_nonneg by lia. apply Z.mul_div_le. lia. }
  destruct (Z.ltb_spec (maxTokens ÷ 2) 0); [lia|].
  destruct (Z.ltb_spec (len (Fields prompt)) (maxTokens ÷ 2)); [lia|].
  cbn [orb]. eexists. split; [done|].
  assert (Z.to_nat (len (Fields prompt) - maxTokens ÷ 2)
          = (length (Fields prompt) - Z.to_nat (maxTokens ÷ 2))%nat) as ->
    by (unfold len; lia).
  assert (Fields
            (strings.Join
               (take (Z.to_nat (maxTokens ÷ 2)) (Fields prompt)
                ++ truncatedWord
                :: drop (length (Fields prompt) - Z.to_nat (maxTokens ÷ 2))
                     (Fields prompt)) " ")
          = take (Z.to_nat (maxTokens ÷ 2)) (Fields prompt)
            ++ truncatedWord
            :: drop (length (Fields prompt) - Z.to_nat (maxTokens ÷ 2))
                 (Fields prompt)) as Hread.
  { apply Fields_Join, Forall_app. split; [apply Forall_take, Fields_words|].
    constructor; [apply truncatedWord_word|apply Forall_drop, Fields_words]. }
  assert (len (take (Z.to_nat (maxTokens ÷ 2)) (Fields prompt)
               ++ truncatedWord
               :: drop (length (Fields prompt) - Z.to_nat (maxTokens ÷ 2))
                    (Fields prompt))
          = 2 * (maxTokens ÷ 2) + 1) as Hlen.
  { unfold len in *. rewrite length_app. cbn [length].
    rewrite length_take, length_drop. lia. }
  rewrite Hread. split; [done|]. rewrite Hlen. split; [done|].
  rewrite Z.quot_div_nonneg in * by lia.
  pose proof (Z.div_mod maxTokens 2 ltac:(lia)) as Hdm.
  pose proof (Z.mod_pos_bound maxTokens 2 ltac:(lia)) as Hmod.
  rewrite Zeven_mod. split; intros Heven.
  - apply Z.eqb_eq. lia.
  - apply Z.eqb_eq in Heven. lia.
Qed.

Lemma truncated_prompt_words_witness :
  0 ≤ 2 < EstimateTokens "a b c d"
  ∧ ∃ out,
      TruncateInput "a b c d" 2 = Returns (out, true)
      ∧ Fields out
        = take (Z.to_nat (2 / 2)) (Fields "a b c d")
          ++ truncatedWord
          :: drop (length (Fields "a b c d") - Z.to_nat (2 / 2)) (Fields "a b c d")
      ∧ EstimateTokens out = 2 * (2 / 2) + 1
      ∧ (2 < EstimateTokens out ↔ Z.even 2 = true).
Proof.
  assert (0 ≤ 2 < EstimateTokens "a b c d") as H by (by vm_compute).
  split; [exact H|]. exact (truncated_prompt_words "a b c d" 2 H).
Defined.

(** * Every file reaches the digest *)

Lemma writeAll_elem {A} (f : A → string) (x : A) (l : list A) :
  x ∈ l → ∃ a b, writeAll (map f l) = a +:+ f x +:+ b.
Proof.
  intros (l1 & l2 & ->)%list_elem_of_split.
  exists (writeAll (map f l1)), (writeAll (map f l2)).
  by rewrite map_app, writeAll_app.
Qed.

Lemma fileSection_header perFile fc :
  ∃ body, fileSection perFile fc = sectionHeader fc +:+ body.
Proof.
  unfold fileSection. destruct (IsBinary fc); by eexists.
Qed.

(** X13: whatever the budget and the order of the directories, every file
    has its line in the list of changed files and, after it, the header of
    its own section. *)
Theorem every_file_is_listed_and_has_a_section
    (fileChanges : list FileChange) (maxTokens : Z) (out : string) (fc : FileChange) :
  fc ∈ fileChanges →
  PrepareSmartDiffOn fileChanges maxTokens out →
  ∃ a b c, out = a +:+ fileLine fc +:+ b +:+ sectionHeader fc +:+ c.
Proof.
  intros Hin (order & _ & ->).
  rewrite smartDiff_sections by (intros ->; by apply not_elem_of_nil in Hin).
  destruct (writeAll_elem fileLine fc fileChanges Hin) as (l1 & l2 & Hlist).
  destruct (writeAll_elem
              (fileSection (tokensPerFile maxTokens (len fileChanges)))
              fc fileChanges Hin) as (s1 & s2 & Hsections).
  destruct (fileSection_header (tokensPerFile maxTokens (len fileChanges)) fc)
    as (body & Hbody).
  unfold digestHead. rewrite Hlist, Hsections, Hbody.
  exists ("Commit includes " +:+ fmt_d (len fileChanges) +:+ " files:" +:+ NL
          +:+ statistics fileChanges
          +:+ directorySection (dirGroups fileChanges) order
          +:+ NL +:+ "Changed files:" +:+ NL +:+ l1),
    (l2 +:+ NL +:+ "Selected diff content:" +:+ NL +:+ s1), (body +:+ s2).
  by rewrite !append_assoc.
Qed.

Lemma every_file_is_listed_and_has_a_section_witness :
  (binaryChange ∈ [sampleChange; binaryChange]
   ∧ PrepareSmartDiffOn [sampleChange; binaryChange] 0
       (smartDiff (map_to_list (dirGroups [sampleChange; binaryChange]))
          [sampleChange; binaryChange] 0))
  ∧ ∃ a b c,
      smartDiff (map_to_list (dirGroups [sampleChange; binaryChange]))
        [sampleChange; binaryChange] 0
      = a +:+ fileLine binaryChange +:+ b +:+ sectionHeader binaryChange +:+ c.
Proof.
  assert (binaryChange ∈ [sampleChange; binaryChange]) as Hin
    by (apply list_elem_of_further, list_elem_of_here).
  assert (PrepareSmartDiffOn [sampleChange; binaryChange] 0
            (smartDiff (map_to_list (dirGroups [sampleChange; binaryChange]))
               [sampleChange; binaryChange] 0)) as Hrun
    by (eexists; split; [apply rangeOrder_exists|done]).
  split; [exact (conj Hin Hrun)|].
  exact (every_file_is_listed_and_has_a_section _ _ _ _ Hin Hrun).
Defined.

(** * Which diffs are shown whole, from the inputs *)

(** X14: the budget and the cut put together: with a total budget [maxTokens]
    below [3 * 2^49] and [n] files, each file has
    [4 * (4*maxTokens / (5*n))] bytes.  A text file that is not deleted has
    its diff whole when the diff is no longer than that; a longer diff of
    more than five lines is cut to its first five lines, the marker and the
    important chunks. *)
Theorem diff_shown_whole_up_to_share_of_budget
    (before after : list FileChange) (fc : FileChange) (maxTokens : Z) :
  let fileChanges := before ++ fc :: after in
  let share := 4 * (4 * maxTokens / (5 * len fileChanges)) in
  let diffLines := strings.Split (Diff fc) NL_byte in
  0 < maxTokens < 3 * 2 ^ 49 →
  IsBinary fc = false → ChangeType fc ≠ "Deleted" → Diff fc ≠ EmptyString →
  (Z.of_nat (String.length (Diff fc)) ≤ share →
     fileSection (tokensPerFile maxTokens (len fileChanges)) fc
     = sectionHeader fc +:+ NL +:+ Diff fc)
  ∧ (share < Z.of_nat (String.length (Diff fc)) → (5 < length diffLines)%nat →
     fileSection (tokensPerFile maxTokens (len fileChanges)) fc
     = sectionHeader fc +:+ NL
       +:+ strings.Join (take 5 diffLines) NL +:+ truncationMarker
       +:+ importantSection (importantChunksOf diffLines)).
Proof.
  intros fileChanges share diffLines Hbudget Hbin Hdel Hne.
  assert (0 < len fileChanges) as Hcount.
  { subst fileChanges. rewrite len_app, len_cons.
    pose proof (len_nonneg before). pose proof (len_nonneg after). lia. }
  assert (charBudget (tokensPerFile maxTokens (len fileChanges)) = share) as Hshare.
  { rewrite tokensPerFile_exact by done.
    assert (0 ≤ 4 * maxTokens / (5 * len fileChanges) ≤ 4 * maxTokens) as Hq.
    { split; [apply Z.div_pos; lia|].
      apply Z.div_le_upper_bound; [lia|]. nia. }
    rewrite charBudget_exact by lia. subst share. lia. }
  rewrite fileSection_text by done. split.
  - intros Hfit. by rewrite diffPortion_within by (try rewrite Hshare; done).
  - intros Hover Hlong. rewrite diffPortion_over by (try rewrite Hshare; done).
    cbv zeta. fold diffLines.
    by destruct (Nat.ltb_spec 5 (length diffLines)); [|lia].
Qed.

Lemma diff_shown_whole_up_to_share_of_budget_witness :
  (0 < 1000 < 3 * 2 ^ 49
   ∧ IsBinary sampleChange = false
   ∧ ChangeType sampleChange ≠ "Deleted"
   ∧ Diff sampleChange ≠ EmptyString
   ∧ Z.of_nat (String.length (Diff sampleChange))
     ≤ 4 * (4 * 1000 / (5 * len [sampleChange; binaryChange])))
  ∧ fileSection (tokensPerFile 1000 (len [sampleChange; binaryChange])) sampleChange
    = sectionHeader sampleChange +:+ NL +:+ sampleDiff.
Proof.
  assert (0 < 1000 < 3 * 2 ^ 49) as Hbudget by lia.
  assert (ChangeType sampleChange ≠ "Deleted") as Hdel by discriminate.
  assert (Diff sampleChange ≠ EmptyString) as Hne by discriminate.
  assert (Z.of_nat (String.length (Diff sampleChange))
          ≤ 4 * (4 * 1000 / (5 * len [sampleChange; binaryChange]))) as Hfit
    by (vm_compute; discriminate).
  split; [by repeat split|].
  exact (proj1 (diff_shown_whole_up_to_share_of_budget [] [binaryChange]
                  sampleChange 1000 Hbudget eq_refl Hdel Hne) Hfit).
Defined.
